(** * GameServerManager: the fleet lifecycle controller of [app/main.py]

    A shallow embedding of the request handler and its helpers
    ([request_game], [get_latest_image_tags], [remove_stopped_containers],
    [check_images_pulled], [create_server], [find_free_port] and the startup
    half of [lifespan]) as computations in a state-and-exception monad.

    The module globals ([containers], [latest_tags], [min_supported_tag]) are
    fields of the state.  The outside world (the Docker daemon, Docker Hub,
    the OS socket layer) is an [Env] of oracles that answer a call from the
    history of the calls made so far; every call is appended to that history,
    so that the effects of a run can be read back from the final state.
    Logging is left out: it neither fails nor touches the state. *)

From Stdlib Require Import String Ascii List ZArith Bool Lia DecimalString.
Import ListNotations.
Open Scope string_scope.
Open Scope Z_scope.

(** ** Configuration constants (main.py, lines 12-19) *)

Definition DOCKER_USER : string := "stuxgames".
Definition DOCKER_REPO : string := "flappierace".
Definition IMAGE_NAME : string := DOCKER_USER ++ "/" ++ DOCKER_REPO.
Definition SECRETS_VOLUME : string := "flappieracebackend_nginx_secrets".
Definition MAX_CONTAINER_RETRIES : Z := 10.
Definition MAX_RUNNING_SERVERS : Z := 20.
Definition MAX_TAGS : Z := 5.

(** [DOCKER_HUB_URL.format(user=user, repo=repo)] *)
Definition DOCKER_HUB_URL (user repo : string) : string :=
  "https://hub.docker.com/v2/namespaces/" ++ user ++ "/repositories/" ++ repo ++ "/tags/".

(** [str(n)] for a Python int. *)
Definition str_int (n : Z) : string := NilZero.string_of_int (Z.to_int n).

(** [sep.join(parts)] *)
Definition join (sep : string) (parts : list string) : string := String.concat sep parts.

(** ** Python exceptions

    The classes that can reach the handlers of this program, with the
    inheritance of the libraries that define them: docker-py derives
    [ImageNotFound] from [NotFound] and [NotFound] from [APIError]
    (docker/errors.py), and [APIError] from requests' [HTTPError]. *)

Inductive exn_class : Set :=
| Exception
| TypeError
| ValueError
| KeyError
| OSError
| RequestException
| ConnectionError
| HTTPError
| JSONDecodeError
| DockerException
| APIError
| NotFound
| ImageNotFound
| StarletteHTTPException.

Definition exn_class_eqb (a b : exn_class) : bool :=
  match a, b with
  | Exception, Exception | TypeError, TypeError | ValueError, ValueError
  | KeyError, KeyError | OSError, OSError | RequestException, RequestException
  | ConnectionError, ConnectionError | HTTPError, HTTPError
  | JSONDecodeError, JSONDecodeError | DockerException, DockerException
  | APIError, APIError | NotFound, NotFound | ImageNotFound, ImageNotFound
  | StarletteHTTPException, StarletteHTTPException => true
  | _, _ => false
  end.

(** The proper ancestors of a class among the classes listed here, in
    method resolution order. *)
Definition ancestors (c : exn_class) : list exn_class :=
  match c with
  | Exception => []
  | TypeError | ValueError | KeyError | OSError => [Exception]
  | RequestException => [OSError; Exception]
  | ConnectionError | HTTPError => [RequestException; OSError; Exception]
  | JSONDecodeError => [RequestException; OSError; ValueError; Exception]
  | DockerException => [Exception]
  | APIError => [HTTPError; RequestException; OSError; DockerException; Exception]
  | NotFound => [APIError; HTTPError; RequestException; OSError; DockerException; Exception]
  | ImageNotFound =>
      [NotFound; APIError; HTTPError; RequestException; OSError; DockerException; Exception]
  | StarletteHTTPException => [Exception]
  end.

Definition issubclass (c d : exn_class) : bool :=
  exn_class_eqb c d || existsb (exn_class_eqb d) (ancestors c).

(** An exception in flight: fastapi's [HTTPException(status_code, detail)]
    or an instance of one of the classes above with its message. *)
Inductive exn : Type :=
| HTTPException (status_code : Z) (detail : string)
| Raised (cls : exn_class) (msg : string).

Definition class_of (e : exn) : exn_class :=
  match e with
  | HTTPException _ _ => StarletteHTTPException
  | Raised c _ => c
  end.

Definition isinstance (e : exn) (c : exn_class) : bool := issubclass (class_of e) c.

Definition HTTP_400_BAD_REQUEST : Z := 400.
Definition HTTP_426_UPGRADE_REQUIRED : Z := 426.
Definition HTTP_429_TOO_MANY_REQUESTS : Z := 429.

(** ** The semantic_version interface

    [semver.Version] is used through its constructor (which raises
    [ValueError] on a string that is not a version), [str], [==], [<] and
    [>].  The program is verified against this interface. *)

Class SemVer : Type := {
  Version : Type;
  (** [semver.Version(s)]; [None] stands for the [ValueError]. *)
  version_parse : string -> option Version;
  version_str : Version -> string;
  version_eq : Version -> Version -> bool;
  version_lt : Version -> Version -> bool;
  version_gt : Version -> Version -> bool
}.

(** The part of semantic-versioning precedence the catalog relies on. *)
Class SemVerOrder (SV : SemVer) : Prop := {
  version_gt_lt : forall a b : Version, version_gt a b = version_lt b a;
  version_lt_irrefl : forall a : Version, version_lt a a = false;
  version_lt_trans : forall a b c : Version,
      version_lt a b = true -> version_lt b c = true -> version_lt a c = true
}.

(** ** The outside world *)

(** A [docker.models.containers.Container] object: its id and the status
    cached in its attributes, which [reload()] refreshes. *)
Record Container : Set := { container_id : string; container_status : string }.

(** Objects are held by reference: the registry and the snapshot taken by
    reconciliation share the same container objects. *)
Definition ref : Set := nat.

(** The keyword arguments of [docker_client.containers.run]. *)
Record RunSpec : Set := {
  run_image : string;
  run_command : list string;
  run_tty : bool;
  run_ports : list (string * (string * Z));
  run_volumes : list string;
  run_detach : bool
}.

(** The calls the program makes to its collaborators. *)
Inductive event : Set :=
| EvGet (url : string) (page_size : Z)   (* requests.get(url, params) *)
| EvReload (id : string)                 (* container.reload() *)
| EvPull (repository tag : string)       (* docker_client.images.pull *)
| EvBindPort                             (* socket().bind(("127.0.0.1", 0)) *)
| EvRun (spec : RunSpec).                (* docker_client.containers.run *)

(** What [requests.get] returned: the status code and what [req.json()]
    followed by the reads of ["results"] and of each entry's ["name"] give,
    either the tag names in order or the exception raised on the way (a body
    that is not JSON, a missing key). *)
Record Response : Set := {
  status_code : Z;
  json_names : exn + list string
}.

(** The collaborators, each answering from the history of calls so far. *)
Record Env : Type := {
  requests_get : list event -> string -> Z -> exn + Response;
  container_reload : list event -> string -> exn + string;
  images_pull : list event -> string -> string -> exn + unit;
  bind_port : list event -> exn + Z;
  containers_run : list event -> RunSpec -> exn + Container
}.

(** ** Python dicts keyed by strings, in insertion order *)

Section Dict.
Context {V : Type}.

Definition dict : Type := list (string * V).

Definition dict_values (d : dict) : list V := map snd d.
Definition dict_keys (d : dict) : list string := map fst d.

Fixpoint dict_get (k : string) (d : dict) : option V :=
  match d with
  | [] => None
  | (k', v) :: d' => if String.eqb k' k then Some v else dict_get k d'
  end.

(** [d[k] = v]: an existing key keeps its place. *)
Fixpoint dict_set (k : string) (v : V) (d : dict) : dict :=
  match d with
  | [] => [(k, v)]
  | (k', v') :: d' => if String.eqb k' k then (k, v) :: d' else (k', v') :: dict_set k v d'
  end.

(** [d.pop(k)]: the remaining dict, or [None] for the [KeyError]. *)
Fixpoint dict_pop (k : string) (d : dict) : option dict :=
  match d with
  | [] => None
  | (k', v) :: d' =>
      if String.eqb k' k then Some d'
      else match dict_pop k d' with
           | Some r => Some ((k', v) :: r)
           | None => None
           end
  end.
End Dict.
Arguments dict V : clear implicits.

(** ** Program state and the monad of computations *)

Section Program.
Context {SV : SemVer}.

Record State : Type := {
  containers : dict ref;                 (* [containers = {}] *)
  latest_tags : list Version;            (* [latest_tags = []] *)
  min_supported_tag : option Version;    (* [min_supported_tag = None] *)
  heap : list Container;                 (* the container objects *)
  history : list event                   (* the calls made so far, oldest first *)
}.

(** The state of the module right after import. *)
Definition initial_state : State :=
  {| containers := []; latest_tags := []; min_supported_tag := None;
     heap := []; history := [] |}.

Definition set_containers (d : dict ref) (s : State) : State :=
  {| containers := d; latest_tags := latest_tags s;
     min_supported_tag := min_supported_tag s; heap := heap s; history := history s |}.

Definition set_catalog (tags : list Version) (min_tag : option Version) (s : State) : State :=
  {| containers := containers s; latest_tags := tags;
     min_supported_tag := min_tag; heap := heap s; history := history s |}.

Definition set_heap (h : list Container) (s : State) : State :=
  {| containers := containers s; latest_tags := latest_tags s;
     min_supported_tag := min_supported_tag s; heap := h; history := history s |}.

Definition record_event (ev : event) (s : State) : State :=
  {| containers := containers s; latest_tags := latest_tags s;
     min_supported_tag := min_supported_tag s; heap := heap s;
     history := history s ++ [ev] |}.

(** A computation returns a value or raises, and leaves a state either way. *)
Definition M (A : Type) : Type := State -> (exn + A) * State.

Definition ret {A} (a : A) : M A := fun s => (inr a, s).
Definition raise {A} (e : exn) : M A := fun s => (inl e, s).
Definition bind {A B} (m : M A) (k : A -> M B) : M B :=
  fun s => match m s with
           | (inr a, s') => k a s'
           | (inl e, s') => (inl e, s')
           end.
Definition gets {A} (f : State -> A) : M A := fun s => (inr (f s), s).
Definition modify (f : State -> State) : M unit := fun s => (inr tt, f s).

(** A call to a collaborator: it is answered from the history so far and
    then recorded. *)
Definition call {A} (ev : event) (oracle : list event -> exn + A) : M A :=
  fun s => (oracle (history s), record_event ev s).

(** [try: body / except C1 as err: h1 / except C2 as err: h2 / else: orelse]:
    the first clause whose class the exception is an instance of handles
    it; exceptions of the handlers and of [orelse] are not caught. *)
Fixpoint select_handler {B} (e : exn) (handlers : list ((exn -> bool) * (exn -> M B)))
  : option (M B) :=
  match handlers with
  | [] => None
  | (guard, h) :: rest => if guard e then Some (h e) else select_handler e rest
  end.

Definition try_except_else {A B} (body : M A)
           (handlers : list ((exn -> bool) * (exn -> M B))) (orelse : A -> M B) : M B :=
  fun s => match body s with
           | (inr a, s') => orelse a s'
           | (inl e, s') =>
               match select_handler e handlers with
               | Some h => h s'
               | None => (inl e, s')
               end
           end.

(** [for x in xs: body x] *)
Fixpoint for_each {A} (xs : list A) (body : A -> M unit) : M unit :=
  match xs with
  | [] => ret tt
  | x :: xs' => bind (body x) (fun _ => for_each xs' body)
  end.
End Program.

Declare Scope prog_scope.
Delimit Scope prog_scope with prog.
Notation "x <- m ;; k" := (bind m (fun x => k))
  (at level 61, m at next level, right associativity) : prog_scope.
Notation "m ;;; k" := (bind m (fun _ => k))
  (at level 61, right associativity) : prog_scope.

(** ** The program *)

(** [class GameRequest(BaseModel)]: [name], [list], [version]. *)
Record GameRequest : Set := {
  req_name : string;
  req_list : bool;
  req_version : string
}.

Section Controller.
Context {SV : SemVer}.
Variable env : Env.
Local Open Scope prog_scope.

(** Attribute reads and writes on a container object. *)
Definition deref (c : ref) (s : State) : Container :=
  nth c (heap s) {| container_id := ""; container_status := "" |}.

Fixpoint update_nth {A} (n : nat) (x : A) (l : list A) : list A :=
  match l, n with
  | [], _ => []
  | _ :: l', O => x :: l'
  | y :: l', S n' => y :: update_nth n' x l'
  end.

Definition set_status (c : ref) (st : string) : M unit :=
  modify (fun s =>
    set_heap (update_nth c {| container_id := container_id (deref c s);
                              container_status := st |} (heap s)) s).

(** A new object for a container handed back by the runtime. *)
Definition new_container (c : Container) : M ref :=
  fun s => (inr (length (heap s)), set_heap (heap s ++ [c]) s).

(** [container.reload()] *)
Definition reload (c : ref) : M unit :=
  cid <- gets (fun s => container_id (deref c s)) ;;
  st <- call (EvReload cid) (fun h => container_reload env h cid) ;;
  set_status c st.

(** [containers.pop(key)] *)
Definition containers_pop (key : string) : M unit :=
  d <- gets containers ;;
  match dict_pop key d with
  | Some d' => modify (set_containers d')
  | None => raise (Raised KeyError key)
  end.

(** [', '.join(str(v) for v in latest_tags)] *)
Definition supported_versions (tags : list Version) : string :=
  join ", " (map version_str tags).

(** [version in tags] *)
Definition version_in (version : Version) (tags : list Version) : bool :=
  existsb (fun t => version_eq t version) tags.

(** [version < other] where [other] may be [None]: [Version.__lt__]
    returns [NotImplemented] for an operand that is not a [Version], and
    the comparison raises [TypeError]. *)
Definition version_less (version : Version) (other : option Version) : M bool :=
  match other with
  | Some m => ret (version_lt version m)
  | None =>
      raise (Raised TypeError
               "'<' not supported between instances of 'Version' and 'NoneType'")
  end.

(** The loop body of [get_latest_image_tags] (lines 107-115), on the locals
    [tags] and [min_tag]. *)
Fixpoint scan_tags (names : list string) (tags : list Version) (min_tag : option Version)
  : list Version * option Version :=
  match names with
  | [] => (tags, min_tag)
  | name :: names' =>
      match version_parse name with
      | None => scan_tags names' tags min_tag
      | Some version =>
          let min_tag' :=
            match min_tag with
            | None => Some version
            | Some m => if version_gt m version then Some version else Some m
            end in
          scan_tags names' (tags ++ [version]) min_tag'
      end
  end.

(** [get_latest_image_tags(user, repo)] (lines 98-121) *)
Definition get_latest_image_tags (user repo : string) : M unit :=
  let url := DOCKER_HUB_URL user repo in
  req <- call (EvGet url MAX_TAGS) (fun h => requests_get env h url MAX_TAGS) ;;
  if negb (status_code req =? 200) then ret tt
  else
    match json_names req with
    | inl e => raise e
    | inr names =>
        let '(tags, min_tag) := scan_tags names [] None in
        modify (set_catalog tags min_tag)
    end.

(** One iteration of the loop of [remove_stopped_containers] (lines 127-135). *)
Definition remove_if_stopped (container : ref) : M unit :=
  try_except_else
    (reload container ;;;
     st <- gets (fun s => container_status (deref container s)) ;;
     if negb (String.eqb st "running")
     then cid <- gets (fun s => container_id (deref container s)) ;; containers_pop cid
     else ret tt)
    [(fun _ => true,
      fun _ => cid <- gets (fun s => container_id (deref container s)) ;; containers_pop cid)]
    ret.

(** [remove_stopped_containers()] (lines 124-135): the loop runs over a
    snapshot of the values. *)
Definition remove_stopped_containers : M unit :=
  snapshot <- gets (fun s => dict_values (containers s)) ;;
  for_each snapshot remove_if_stopped.

(** [check_images_pulled(image, tags)] (lines 138-142) *)
Definition check_images_pulled (image : string) (tags : list Version) : M unit :=
  for_each tags (fun tag =>
    call (EvPull image (version_str tag)) (fun h => images_pull env h image (version_str tag))).

(** [find_free_port()] (lines 182-186) *)
Definition find_free_port : M Z :=
  call EvBindPort (bind_port env).

(** The arguments of the [containers.run] call of [create_server]
    (lines 152-165). *)
Definition run_spec (game_request : GameRequest) (port : Z) : RunSpec :=
  let args := ["--name"; req_name game_request; "--port"; str_int port] in
  let args := if req_list game_request then (args ++ ["--list"])%list else args in
  {| run_image := IMAGE_NAME ++ ":" ++ req_version game_request;
     run_command := args;
     run_tty := true;
     run_ports := [(str_int port ++ "/udp", ("0.0.0.0", port));
                   (str_int port ++ "/tcp", ("0.0.0.0", port))];
     run_volumes := [SECRETS_VOLUME ++ ":/secrets:ro"];
     run_detach := true |}.

(** One iteration of the loop of [create_server] (lines 148-175): the
    port when the container started, [None] to go on with the next attempt. *)
Definition create_attempt (game_request : GameRequest) (attempt : nat) : M (option Z) :=
  try_except_else
    (port <- find_free_port ;;
     let spec := run_spec game_request port in
     c <- call (EvRun spec) (fun h => containers_run env h spec) ;;
     container <- new_container c ;;
     ret (port, container))
    [(fun err => isinstance err APIError,
      fun err => ret None);
     (fun err => isinstance err ImageNotFound,
      fun err => tags <- gets latest_tags ;; check_images_pulled IMAGE_NAME tags ;;; ret None)]
    (fun '(port, container) =>
       cid <- gets (fun s => container_id (deref container s)) ;;
       modify (fun s => set_containers (dict_set cid container (containers s)) s) ;;;
       ret (Some port)).

(** [for attempt in range(...): ... else: raise Exception(...)] (lines 147-179) *)
Fixpoint create_loop (game_request : GameRequest) (attempts : list nat) : M Z :=
  match attempts with
  | [] =>
      raise (Raised Exception
               ("Failed to create container after " ++ str_int MAX_CONTAINER_RETRIES
                ++ " attempts - stopping."))
  | attempt :: attempts' =>
      r <- create_attempt game_request attempt ;;
      match r with
      | Some port => ret port
      | None => create_loop game_request attempts'
      end
  end.

(** [create_server(game_request)] (lines 145-179) *)
Definition create_server (game_request : GameRequest) : M Z :=
  tags <- gets latest_tags ;;
  check_images_pulled IMAGE_NAME tags ;;;
  create_loop game_request (seq 0 (Z.to_nat MAX_CONTAINER_RETRIES)).

(** [request_game(game_request)] (lines 64-95); the result is the port of
    the [{"port": port}] body. *)
Definition request_game (game_request : GameRequest) : M Z :=
  match version_parse (req_version game_request) with
  | None =>
      tags <- gets latest_tags ;;
      raise (HTTPException HTTP_400_BAD_REQUEST
               ("Request didn't contain a valid version! Supported versions: "
                ++ supported_versions tags))
  | Some version =>
      remove_stopped_containers ;;;
      n <- gets (fun s => Z.of_nat (length (containers s))) ;;
      if n >=? MAX_RUNNING_SERVERS then
        raise (HTTPException HTTP_429_TOO_MANY_REQUESTS
                 "Max amount of official servers reached! Try joining a public one.")
      else
        min_tag <- gets min_supported_tag ;;
        too_old <- version_less version min_tag ;;
        if too_old then
          tags <- gets latest_tags ;;
          raise (HTTPException HTTP_426_UPGRADE_REQUIRED
                   ("Your game version is out of date! Supported versions: "
                    ++ supported_versions tags))
        else
          tags <- gets latest_tags ;;
          (if negb (version_in version tags) then
             get_latest_image_tags DOCKER_USER DOCKER_REPO ;;;
             tags' <- gets latest_tags ;;
             if negb (version_in version tags') then
               raise (HTTPException HTTP_400_BAD_REQUEST
                        ("Unsupported game version! Supported versions: "
                         ++ supported_versions tags'))
             else ret tt
           else ret tt) ;;;
          create_server game_request
  end.

(** The startup half of [lifespan] (lines 29-31). *)
Definition lifespan_startup : M unit :=
  get_latest_image_tags DOCKER_USER DOCKER_REPO ;;;
  tags <- gets latest_tags ;;
  check_images_pulled IMAGE_NAME tags.

End Controller.

(** ** A concrete version type: release versions

    Versions of the form MAJOR.MINOR.PATCH, three decimal numbers without
    leading zeros, ordered by precedence.  This is the fragment of
    semantic versions without pre-release and build parts; the concrete
    runs below use release versions only. *)

Module Release.

Record t : Set := { major : Z; minor : Z; patch : Z }.

(** [s.split(sep)] *)
Fixpoint split (sep : ascii) (s : string) : list string :=
  match s with
  | EmptyString => [EmptyString]
  | String c s' =>
      if Ascii.eqb c sep then EmptyString :: split sep s'
      else match split sep s' with
           | [] => [String c EmptyString]
           | w :: ws => String c w :: ws
           end
  end.

Definition is_digit (c : ascii) : bool :=
  (48 <=? Z.of_nat (nat_of_ascii c)) && (Z.of_nat (nat_of_ascii c) <=? 57).

Fixpoint digits (s : string) (acc : Z) : option Z :=
  match s with
  | EmptyString => Some acc
  | String c s' =>
      if is_digit c then digits s' (10 * acc + (Z.of_nat (nat_of_ascii c) - 48)) else None
  end.

(** A numeric component: digits only, not empty, no leading zero. *)
Definition number (s : string) : option Z :=
  match s with
  | EmptyString => None
  | String "0" (String _ _) => None
  | _ => digits s 0
  end.

Definition parse (s : string) : option t :=
  match split "." s with
  | [a; b; c] =>
      match number a, number b, number c with
      | Some x, Some y, Some z => Some {| major := x; minor := y; patch := z |}
      | _, _, _ => None
      end
  | _ => None
  end.

Definition str (v : t) : string :=
  str_int (major v) ++ "." ++ str_int (minor v) ++ "." ++ str_int (patch v).

Definition eqb (a b : t) : bool :=
  (major a =? major b) && (minor a =? minor b) && (patch a =? patch b).

Definition ltb (a b : t) : bool :=
  (major a <? major b)
  || ((major a =? major b)
      && ((minor a <? minor b) || ((minor a =? minor b) && (patch a <? patch b)))).

Definition gtb (a b : t) : bool := ltb b a.

End Release.

#[export] Instance ReleaseVersion : SemVer := {|
  Version := Release.t;
  version_parse := Release.parse;
  version_str := Release.str;
  version_eq := Release.eqb;
  version_lt := Release.ltb;
  version_gt := Release.gtb
|}.

(** ** Reading effects back from the history *)

Definition is_get (ev : event) : bool := match ev with EvGet _ _ => true | _ => false end.
Definition is_reload (ev : event) : bool := match ev with EvReload _ => true | _ => false end.
Definition is_pull (ev : event) : bool := match ev with EvPull _ _ => true | _ => false end.
Definition is_bind (ev : event) : bool := match ev with EvBindPort => true | _ => false end.
Definition is_run (ev : event) : bool := match ev with EvRun _ => true | _ => false end.

(** The calls made while launching: pulls, port allocations, run requests. *)
Definition is_launch (ev : event) : bool := is_pull ev || is_bind ev || is_run ev.

Definition count_events (p : event -> bool) (h : list event) : nat := length (filter p h).

(** ** Scripted collaborators for concrete runs

    The registry gives one fixed reply, a container's status depends on its
    id, a pull on the tag, and the n-th port allocation and the n-th run
    request (counted from 0 over the history) are answered by position. *)

Definition scripted_env (get : exn + Response) (reload : string -> exn + string)
           (pull : string -> exn + unit) (port : nat -> Z) (run : nat -> exn + Container)
  : Env :=
  {| requests_get := fun _ _ _ => get;
     container_reload := fun _ id => reload id;
     images_pull := fun _ _ tag => pull tag;
     bind_port := fun h => inr (port (count_events is_bind h));
     containers_run := fun h _ => run (count_events is_run h) |}.

Definition v100 : Release.t := {| Release.major := 1; Release.minor := 0; Release.patch := 0 |}.
Definition v120 : Release.t := {| Release.major := 1; Release.minor := 2; Release.patch := 0 |}.

(** A request for version 1.2.0. *)
Definition request_120 : GameRequest :=
  {| req_name := "lobby"; req_list := true; req_version := "1.2.0" |}.

(** Docker Hub answering 200 with the tags latest, 1.2.0 and 1.0.0. *)
Definition hub_ok : exn + Response :=
  inr {| status_code := 200; json_names := inr ["latest"; "1.2.0"; "1.0.0"] |}.

(** A state whose catalog holds 1.2.0 and 1.0.0, with no running server. *)
Definition primed_state : State :=
  {| containers := []; latest_tags := [v120; v100]; min_supported_tag := Some v100;
     heap := []; history := [] |}.

Definition all_running (id : string) : exn + string := inr "running".
Definition pull_ok (tag : string) : exn + unit := inr tt.
Definition ports_from (base : Z) (n : nat) : Z := base + Z.of_nat n.
Definition run_ok (n : nat) : exn + Container :=
  inr {| container_id := "c" ++ str_int (Z.of_nat n); container_status := "created" |}.

(** ** Predicates used in the statements *)

Section Predicates.
Context {SV : SemVer}.
Variable env : Env.

(** Every run of [m] relates its initial and final states by [R]. *)
Definition preserves {A} (R : State -> State -> Prop) (m : M A) : Prop :=
  forall s r s', m s = (r, s') -> R s s'.

(** From [s] to [s']: the catalog is untouched and the calls made in
    between all satisfy [p]. *)
Definition extends_by (p : event -> bool) (s s' : State) : Prop :=
  latest_tags s' = latest_tags s /\
  min_supported_tag s' = min_supported_tag s /\
  exists evs, history s' = (history s ++ evs)%list /\ forallb p evs = true.

(** The registry as [create_server] builds it: every key is the id of the
    container object it maps to, and no key occurs twice. *)
Definition registry_wf (s : State) : Prop :=
  NoDup (dict_keys (containers s)) /\
  forall k c, In (k, c) (containers s) ->
              (c < length (heap s))%nat /\ container_id (deref c s) = k.

(** Whether the answer to a reload shows a running container. *)
Definition observed_running (answer : exn + string) : bool :=
  match answer with
  | inr st => String.eqb st "running"
  | inl _ => false
  end.

(** The entries whose container answers "running" when reloaded in turn,
    the first reload being made at history [h]. *)
Fixpoint reconciled (h : list event) (d : dict ref) : dict ref :=
  match d with
  | [] => []
  | (k, c) :: d' =>
      let rest := reconciled (h ++ [EvReload k]) d' in
      if observed_running (container_reload env h k) then (k, c) :: rest else rest
  end.

(** One creation attempt made in state [s] that allocates a port and whose
    run request the runtime refuses with an [APIError]; [s'] is the state
    it leaves. *)
Definition attempt_fails (game_request : GameRequest) (s s' : State) : Prop :=
  exists port e,
    bind_port env (history s) = inr port /\
    containers_run env (history s ++ [EvBindPort]) (run_spec game_request port) = inl e /\
    isinstance e APIError = true /\
    s' = record_event (EvRun (run_spec game_request port)) (record_event EvBindPort s).

(** The state a successful attempt made in state [s] leaves: both calls are
    recorded, the container object is allocated and registered under its id. *)
Definition started (game_request : GameRequest) (port : Z) (c : Container) (s : State)
  : State :=
  let s1 := record_event (EvRun (run_spec game_request port)) (record_event EvBindPort s) in
  set_containers (dict_set (container_id c) (length (heap s)) (containers s))
                 (set_heap (heap s ++ [c]) s1).

(** [n] such attempts in a row. *)
Inductive failed_attempts (game_request : GameRequest) : nat -> State -> State -> Prop :=
| failed_none s : failed_attempts game_request O s s
| failed_next n s s1 s2 :
    attempt_fails game_request s s1 ->
    failed_attempts game_request n s1 s2 ->
    failed_attempts game_request (S n) s s2.

End Predicates.

(** A fleet of three tracked containers: [a] is running, [b] has exited and
    [c] was deleted behind the controller's back. *)
Definition fleet_state : State :=
  {| containers := [("a", 0%nat); ("b", 1%nat); ("c", 2%nat)];
     latest_tags := [v120; v100]; min_supported_tag := Some v100;
     heap := [ {| container_id := "a"; container_status := "created" |};
               {| container_id := "b"; container_status := "running" |};
               {| container_id := "c"; container_status := "running" |} ];
     history := [] |}.

Definition fleet_status (id : string) : exn + string :=
  if String.eqb id "a" then inr "running"
  else if String.eqb id "b" then inr "exited"
  else inl (Raised NotFound "No such container").

Definition fleet_env : Env :=
  scripted_env hub_ok fleet_status pull_ok (ports_from 40000) run_ok.

(** ** Catalog refresh: what the statements refer to *)

(** The versions among tag names, in order: the names that parse. *)
Definition parsed_versions {SV : SemVer} (names : list string) : list Version :=
  flat_map (fun name => match version_parse name with
                        | Some v => [v]
                        | None => []
                        end) names.

(** What the loop of [get_latest_image_tags] maintains between the list and
    the running minimum: no minimum for the empty list, otherwise a member
    that no member precedes. *)
Definition min_invariant {SV : SemVer} (tags : list Version) (min_tag : option Version)
  : Prop :=
  match min_tag with
  | None => tags = []
  | Some m => In m tags /\ forall v, In v tags -> version_lt v m = false
  end.

(** The registry call succeeded: [requests.get] returned, with status 200
    and a body from which the tag names could be read. *)
Definition registry_call_succeeded (answer : exn + Response) : bool :=
  match answer with
  | inl _ => false
  | inr resp =>
      (status_code resp =? 200)
      && match json_names resp with inr _ => true | inl _ => false end
  end.

(** Docker Hub unreachable: [requests.get] raises. *)
Definition hub_down : exn + Response :=
  inl (Raised ConnectionError "Max retries exceeded with url").

(** Docker Hub answering 200 with the single tag latest. *)
Definition hub_latest_only : exn + Response :=
  inr {| status_code := 200; json_names := inr ["latest"] |}.

(** Docker Hub answering 503. *)
Definition hub_unavailable : exn + Response :=
  inr {| status_code := 503; json_names := inl (Raised JSONDecodeError "Expecting value") |}.

Definition hub_ok_env : Env :=
  scripted_env hub_ok all_running pull_ok (ports_from 40000) run_ok.
Definition hub_down_env : Env :=
  scripted_env hub_down all_running pull_ok (ports_from 40000) run_ok.
Definition hub_latest_only_env : Env :=
  scripted_env hub_latest_only all_running pull_ok (ports_from 40000) run_ok.
Definition hub_unavailable_env : Env :=
  scripted_env hub_unavailable all_running pull_ok (ports_from 40000) run_ok.

(** ** Image provisioning: what the statements refer to *)

(** The pull request [check_images_pulled] makes for a tag. *)
Definition pull_event {SV : SemVer} (image : string) (tag : Version) : event :=
  EvPull image (version_str tag).

(** A runtime that cannot pull 1.2.0 (the registry refuses) but pulls
    every other tag and starts every container. *)
Definition pull_120_fails (tag : string) : exn + unit :=
  if String.eqb tag "1.2.0" then inl (Raised APIError "500 Server Error: toomanyrequests")
  else inr tt.

Definition pull_fails_env : Env :=
  scripted_env hub_ok all_running pull_120_fails (ports_from 40000) run_ok.

(** ** Container creation: scripted runtimes *)

(** A runtime whose first two run requests fail with an [APIError] (the
    port was taken in the meantime) and whose later ones succeed. *)
Definition flaky_run (n : nat) : exn + Container :=
  if (n <? 2)%nat then inl (Raised APIError "500 Server Error: port is already allocated")
  else run_ok n.

Definition flaky_env : Env :=
  scripted_env hub_ok all_running pull_ok (ports_from 40000) flaky_run.

(** A runtime whose first run request finds the image missing and whose
    later ones succeed. *)
Definition evicted_run (n : nat) : exn + Container :=
  if (n =? 0)%nat then inl (Raised ImageNotFound "404 Client Error: No such image")
  else run_ok n.

Definition evicted_env : Env :=
  scripted_env hub_ok all_running pull_ok (ports_from 40000) evicted_run.

(** A runtime that refuses every run request with an [APIError]. *)
Definition always_refused (n : nat) : exn + Container :=
  inl (Raised APIError "500 Server Error: driver failed programming external connectivity").

Definition refusing_env : Env :=
  scripted_env hub_ok all_running pull_ok (ports_from 40000) always_refused.

(** The exception that ends [create_server] when every attempt failed. *)
Definition launch_failed : exn :=
  Raised Exception "Failed to create container after 10 attempts - stopping.".

(** ** Request handling: the exceptions the handler raises *)

Definition invalid_version {SV : SemVer} (tags : list Version) : exn :=
  HTTPException 400
    ("Request didn't contain a valid version! Supported versions: "
     ++ supported_versions tags).

Definition capacity_exceeded : exn :=
  HTTPException 429 "Max amount of official servers reached! Try joining a public one.".

Definition version_too_old {SV : SemVer} (tags : list Version) : exn :=
  HTTPException 426
    ("Your game version is out of date! Supported versions: " ++ supported_versions tags).

Definition unsupported_version {SV : SemVer} (tags : list Version) : exn :=
  HTTPException 400 ("Unsupported game version! Supported versions: " ++ supported_versions tags).

(** What [version < None] raises. *)
Definition none_comparison : exn :=
  Raised TypeError "'<' not supported between instances of 'Version' and 'NoneType'".

(** The registry call of a refresh made by the handler or at startup. *)
Definition refresh_event : event := EvGet (DOCKER_HUB_URL DOCKER_USER DOCKER_REPO) MAX_TAGS.

(** A state whose catalog predates the publication of 1.2.0. *)
Definition stale_state : State :=
  {| containers := []; latest_tags := [v100]; min_supported_tag := Some v100;
     heap := []; history := [] |}.

Definition v090 : Release.t := {| Release.major := 0; Release.minor := 9; Release.patch := 0 |}.

(** A request for version 0.9.0, older than every supported version. *)
Definition request_090 : GameRequest :=
  {| req_name := "lobby"; req_list := false; req_version := "0.9.0" |}.

(** ** Shutdown (main.py, lines 189-202)

    [stop_all_servers] and [stop_server] read the registry and talk to the
    runtime through two further calls, [docker_client.containers.get] and
    [container.stop]; they change none of the module globals.  Their calls
    are recorded in a history of their own. *)

Inductive stop_event : Set :=
| EvContainersGet (id : string)    (* docker_client.containers.get(id) *)
| EvContainerStop (id : string).   (* container.stop() *)

Record StopEnv : Type := {
  containers_get : list stop_event -> string -> exn + Container;
  container_stop : list stop_event -> string -> exn + unit
}.

(** A shutdown computation: it returns or raises, and extends the history
    of its calls. *)
Definition Stopping (A : Type) : Type := list stop_event -> (exn + A) * list stop_event.

Section Shutdown.
Context {SV : SemVer}.
Variable runtime : StopEnv.

(** [stop_server(container_id)] (lines 195-202): a container that is not
    found is logged and skipped, a container that is found is stopped. *)
Definition stop_server (id : string) : Stopping unit :=
  fun h =>
    let h1 := (h ++ [EvContainersGet id])%list in
    match containers_get runtime h id with
    | inl exc =>
        (* except docker.errors.NotFound as exc: logger.warn(...) *)
        if isinstance exc NotFound then (inr tt, h1) else (inl exc, h1)
    | inr container =>
        (* else: container.stop() *)
        (container_stop runtime h1 (container_id container),
         (h1 ++ [EvContainerStop (container_id container)])%list)
    end.

(** [for container in ...: stop_server(container.id)], on the ids. *)
Fixpoint stop_each (ids : list string) : Stopping unit :=
  match ids with
  | [] => fun h => (inr tt, h)
  | id :: ids' =>
      fun h => match stop_server id h with
               | (inr _, h') => stop_each ids' h'
               | (inl e, h') => (inl e, h')
               end
  end.

(** The ids read off the container objects of the registry, in order. *)
Definition tracked_ids (s : State) : list string :=
  map (fun c => container_id (deref c s)) (dict_values (containers s)).

(** [stop_all_servers()] (lines 189-192) *)
Definition stop_all_servers (s : State) : Stopping unit :=
  stop_each (tracked_ids s).

End Shutdown.

(** The ids looked up and the ids stopped, in the order of the calls. *)
Definition lookups (h : list stop_event) : list string :=
  flat_map (fun ev => match ev with EvContainersGet id => [id] | _ => [] end) h.

Definition stops (h : list stop_event) : list string :=
  flat_map (fun ev => match ev with EvContainerStop id => [id] | _ => [] end) h.

(** The calls of a shutdown during which the containers for which
    [present] holds are found and stopped and the others are reported
    missing. *)
Definition stop_calls (present : string -> bool) (ids : list string) : list stop_event :=
  flat_map (fun id => if present id
                      then [EvContainersGet id; EvContainerStop id]
                      else [EvContainersGet id]) ids.

(** A runtime on which [a] can be stopped, [b] is gone and the daemon
    refuses to stop [c]. *)
Definition fleet_lookup (id : string) : exn + Container :=
  if String.eqb id "b" then inl (Raised NotFound "404 Client Error: No such container: b")
  else inr {| container_id := id; container_status := "running" |}.

Definition fleet_stop (id : string) : exn + unit :=
  if String.eqb id "c" then inl (Raised APIError "500 Server Error: cannot stop container: c")
  else inr tt.

Definition fleet_runtime : StopEnv :=
  {| containers_get := fun _ id => fleet_lookup id;
     container_stop := fun _ id => fleet_stop id |}.

(** A runtime on which every container but [b] is found, and every stop
    succeeds. *)
Definition calm_runtime : StopEnv :=
  {| containers_get := fun _ id => fleet_lookup id;
     container_stop := fun _ _ => inr tt |}.

(** ** Further scripted collaborators *)

(** A runtime whose daemon cannot be reached: the run request raises a
    [ConnectionError], which is not an [APIError]. *)
Definition daemon_down (n : nat) : exn + Container :=
  inl (Raised ConnectionError "Error while fetching server API version").

Definition daemon_down_env : Env :=
  scripted_env hub_ok all_running pull_ok (ports_from 40000) daemon_down.

(** A runtime that starts every container, on a fleet that is already at
    capacity: twenty tracked containers. *)
Definition full_ids : list string :=
  map (fun n => "c" ++ str_int (Z.of_nat n)) (seq 0 20).

Definition full_state : State :=
  {| containers := combine full_ids (seq 0 20);
     latest_tags := [v120; v100]; min_supported_tag := Some v100;
     heap := map (fun id => {| container_id := id; container_status := "running" |}) full_ids;
     history := [] |}.

(** ** The life of the process

    The states in which a request is handled: the state startup leaves
    when it completes, and the state each handled request leaves, whatever
    its outcome.  (The handler runs to completion before the next request
    is taken: it never awaits.) *)
Inductive serving {SV : SemVer} (env : Env) : State -> Prop :=
| serving_started s :
    lifespan_startup env initial_state = (inr tt, s) -> serving env s
| serving_handled game_request s r s' :
    serving env s -> request_game env game_request s = (r, s') -> serving env s'.

(** The state the startup of [hub_ok_env] leaves. *)
Definition started_up_state : State :=
  {| containers := []; latest_tags := [v120; v100]; min_supported_tag := Some v100;
     heap := [];
     history := [refresh_event; EvPull IMAGE_NAME "1.2.0"; EvPull IMAGE_NAME "1.0.0"] |}.
(** * Properties *)

Open Scope list_scope.

(** ** The release versions satisfy the order laws *)

Lemma Release_ltb_spec (a b : Release.t) :
  Release.ltb a b = true <->
  (Release.major a < Release.major b
   \/ (Release.major a = Release.major b
       /\ (Release.minor a < Release.minor b
           \/ (Release.minor a = Release.minor b /\ Release.patch a < Release.patch b)))).
Proof.
  unfold Release.ltb.
  rewrite !orb_true_iff, !andb_true_iff, !orb_true_iff, !andb_true_iff,
    !Z.ltb_lt, !Z.eqb_eq.
  tauto.
Qed.

#[export] Instance ReleaseVersionOrder : SemVerOrder ReleaseVersion.
Proof.
  split.
  - reflexivity.
  - intros a. simpl. destruct (Release.ltb a a) eqn:E; [|reflexivity].
    apply Release_ltb_spec in E. lia.
  - intros a b c Hab Hbc. simpl in *.
    apply Release_ltb_spec in Hab, Hbc. apply Release_ltb_spec. lia.
Qed.

Example release_parse_1_2_0 :
  version_parse "1.2.0" = Some {| Release.major := 1; Release.minor := 2; Release.patch := 0 |}.
Proof. reflexivity. Qed.

Example release_parse_latest : version_parse "latest" = None.
Proof. reflexivity. Qed.

Example release_order : version_lt (Release.Build_t 1 1 9) (Release.Build_t 1 2 0) = true.
Proof. reflexivity. Qed.

(** ** Reasoning about computations *)

Section Reasoning.
Context {SV : SemVer}.

Lemma bind_inr {A B} (m : M A) (k : A -> M B) s a s' :
  m s = (inr a, s') -> bind m k s = k a s'.
Proof. unfold bind. intros ->. reflexivity. Qed.

Lemma bind_inl {A B} (m : M A) (k : A -> M B) s e s' :
  m s = (inl e, s') -> bind m k s = (inl e, s').
Proof. unfold bind. intros ->. reflexivity. Qed.

Section Preserves.
Variable R : State -> State -> Prop.
Hypothesis R_refl : forall s, R s s.
Hypothesis R_trans : forall s1 s2 s3, R s1 s2 -> R s2 s3 -> R s1 s3.

Lemma preserves_ret {A} (a : A) : preserves R (ret a).
Proof. intros s r s' E. inversion E. apply R_refl. Qed.

Lemma preserves_raise {A} (e : exn) : preserves R (@raise _ A e).
Proof. intros s r s' E. inversion E. apply R_refl. Qed.

Lemma preserves_gets {A} (f : State -> A) : preserves R (gets f).
Proof. intros s r s' E. inversion E. apply R_refl. Qed.

Lemma preserves_bind {A B} (m : M A) (k : A -> M B) :
  preserves R m -> (forall a, preserves R (k a)) -> preserves R (bind m k).
Proof.
  intros Hm Hk s r s' E. unfold bind in E.
  destruct (m s) as [[e|a] s1] eqn:Em.
  - inversion E; subst. eapply Hm; eauto.
  - eapply R_trans; [eapply Hm; eauto | eapply Hk; eauto].
Qed.

Lemma preserves_for_each {A} (xs : list A) (body : A -> M unit) :
  (forall x, preserves R (body x)) -> preserves R (for_each xs body).
Proof.
  intros Hb. induction xs as [|x xs IH]; simpl.
  - apply preserves_ret.
  - apply preserves_bind; [apply Hb | intros _; exact IH].
Qed.

Lemma preserves_try {A B} (body : M A) handlers (orelse : A -> M B) :
  preserves R body ->
  Forall (fun gh => forall e, preserves R (snd gh e)) handlers ->
  (forall a, preserves R (orelse a)) ->
  preserves R (try_except_else body handlers orelse).
Proof.
  intros Hb Hh Ho s r s' E. unfold try_except_else in E.
  destruct (body s) as [[e|a] s1] eqn:Eb.
  - assert (Hsel : forall h, select_handler e handlers = Some h -> preserves R h).
    { clear E. induction Hh as [|[g h0] hs Hg _ IH]; simpl; intros h Hs.
      - discriminate.
      - destruct (g e).
        + inversion Hs; subst. apply Hg.
        + apply IH, Hs. }
    destruct (select_handler e handlers) as [h|].
    + eapply R_trans; [eapply Hb; eauto | eapply Hsel; eauto].
    + inversion E; subst. eapply Hb; eauto.
  - eapply R_trans; [eapply Hb; eauto | eapply Ho; eauto].
Qed.
End Preserves.

(** [extends_by p] is a preorder. *)
Lemma extends_by_refl p s : extends_by p s s.
Proof.
  repeat split. exists []. rewrite app_nil_r. split; reflexivity.
Qed.

Lemma extends_by_same p s s' :
  latest_tags s' = latest_tags s ->
  min_supported_tag s' = min_supported_tag s ->
  history s' = history s ->
  extends_by p s s'.
Proof.
  intros Ht Hm Hh. repeat split; auto. exists []. rewrite app_nil_r. auto.
Qed.

Lemma extends_by_trans p s1 s2 s3 :
  extends_by p s1 s2 -> extends_by p s2 s3 -> extends_by p s1 s3.
Proof.
  intros (Ht1 & Hm1 & evs1 & Hh1 & Hp1) (Ht2 & Hm2 & evs2 & Hh2 & Hp2).
  repeat split; try congruence.
  exists (evs1 ++ evs2)%list. split.
  - rewrite Hh2, Hh1, app_assoc. reflexivity.
  - rewrite forallb_app, Hp1, Hp2. reflexivity.
Qed.

Lemma extends_by_weaken (p q : event -> bool) s s' :
  (forall ev, p ev = true -> q ev = true) -> extends_by p s s' -> extends_by q s s'.
Proof.
  intros Hpq (Ht & Hm & evs & Hh & Hp). repeat split; auto.
  exists evs. split; auto.
  rewrite forallb_forall in *. auto.
Qed.

Lemma preserves_call {A} p ev (oracle : list event -> exn + A) :
  p ev = true -> preserves (extends_by p) (call ev oracle).
Proof.
  intros Hp s r s' E. inversion E; subst. repeat split.
  exists [ev]. simpl. rewrite Hp. split; reflexivity.
Qed.

Lemma preserves_modify p (f : State -> State) :
  (forall s, latest_tags (f s) = latest_tags s /\
             min_supported_tag (f s) = min_supported_tag s /\
             history (f s) = history s) ->
  preserves (extends_by p) (modify f).
Proof.
  intros Hf s r s' E. inversion E; subst.
  destruct (Hf s) as (Ht & Hm & Hh). repeat split; auto.
  exists []. rewrite app_nil_r. auto.
Qed.

End Reasoning.

(** ** Dicts and the object heap *)

Section Containers.
Context {SV : SemVer}.

Lemma dict_pop_middle {V} (k : string) (v : V) (pre post : dict V) :
  ~ In k (dict_keys pre) ->
  dict_pop k (pre ++ (k, v) :: post) = Some (pre ++ post).
Proof.
  induction pre as [|[k' v'] pre IH]; simpl; intros Hnot.
  - rewrite String.eqb_refl. reflexivity.
  - destruct (String.eqb k' k) eqn:E.
    + apply String.eqb_eq in E. subst. tauto.
    + rewrite IH by tauto. reflexivity.
Qed.

Lemma length_update_nth {A} (n : nat) (x : A) (l : list A) :
  length (update_nth n x l) = length l.
Proof.
  revert n. induction l as [|y l IH]; intros [|n]; simpl; auto.
Qed.

Lemma nth_update_nth_eq {A} (n : nat) (x d : A) (l : list A) :
  (n < length l)%nat -> nth n (update_nth n x l) d = x.
Proof.
  revert n. induction l as [|y l IH]; intros [|n]; simpl; intros H; try lia; auto.
  apply IH. lia.
Qed.

Lemma nth_update_nth_neq {A} (n m : nat) (x d : A) (l : list A) :
  n <> m -> nth m (update_nth n x l) d = nth m l d.
Proof.
  revert n m. induction l as [|y l IH]; intros [|n] [|m]; simpl; intros H;
    auto; try congruence.
Qed.

(** Refreshing the status of an object changes no object's id. *)
Lemma deref_set_status_id (c c' : ref) (st : string) (s s' : State) :
  set_status c st s = (inr tt, s') ->
  container_id (deref c' s') = container_id (deref c' s).
Proof.
  unfold set_status, modify. intros E. inversion E; subst; clear E.
  unfold deref; simpl.
  destruct (Nat.eq_dec c c') as [->|Hne].
  - destruct (Nat.lt_ge_cases c' (length (heap s))) as [Hlt|Hge].
    + rewrite nth_update_nth_eq by assumption. reflexivity.
    + rewrite !nth_overflow; auto. rewrite length_update_nth. assumption.
  - rewrite nth_update_nth_neq by assumption. reflexivity.
Qed.

Lemma deref_set_status_status (c : ref) (st : string) (s s' : State) :
  (c < length (heap s))%nat ->
  set_status c st s = (inr tt, s') ->
  container_status (deref c s') = st.
Proof.
  unfold set_status, modify. intros Hlt E. inversion E; subst; clear E.
  unfold deref; simpl. rewrite nth_update_nth_eq by assumption. reflexivity.
Qed.

End Containers.

(** ** Reconciliation *)

Section Reconciliation.
Context {SV : SemVer}.
Variable env : Env.

(** One iteration on the entry [(k, c)] of a well-formed registry: no
    exception, the entry stays exactly when its container is observed
    running, and nothing else moves. *)
Lemma remove_if_stopped_entry (pre post : dict ref) (k : string) (c : ref) (s : State) :
  containers s = pre ++ (k, c) :: post ->
  registry_wf s ->
  exists s',
    remove_if_stopped env c s = (inr tt, s') /\
    containers s' =
      pre ++ (if observed_running (container_reload env (history s) k)
              then (k, c) :: post else post) /\
    history s' = history s ++ [EvReload k] /\
    latest_tags s' = latest_tags s /\
    min_supported_tag s' = min_supported_tag s /\
    length (heap s') = length (heap s) /\
    (forall c', container_id (deref c' s') = container_id (deref c' s)).
Proof.
  intros Hc [Hnd Hent].
  assert (Hin : In (k, c) (containers s)) by (rewrite Hc; apply in_elt).
  destruct (Hent k c Hin) as [Hlt Hid].
  assert (Hpre : ~ In k (dict_keys pre)).
  { rewrite Hc in Hnd. unfold dict_keys in *. rewrite map_app in Hnd. simpl in Hnd.
    apply NoDup_remove_2 in Hnd. intros Hk. apply Hnd. apply in_or_app. left. exact Hk. }
  assert (Hpop : dict_pop k (containers s) = Some (pre ++ post)).
  { rewrite Hc. apply dict_pop_middle. exact Hpre. }
  unfold remove_if_stopped, try_except_else, reload, bind, gets, call.
  rewrite Hid.
  destruct (container_reload env (history s) k) as [e|st] eqn:Eans; simpl.
  - (* reload raised: the bare except pops the entry *)
    unfold containers_pop, bind, gets, modify. simpl.
    change (deref c (record_event (EvReload k) s)) with (deref c s).
    rewrite Hid, Hpop. eexists. split; [reflexivity|]. simpl. repeat split; auto.
  - (* reload returned the status [st] *)
    set (s2 := set_heap _ (record_event (EvReload k) s)).
    assert (Hst : container_status (deref c s2) = st).
    { unfold s2, deref. simpl. rewrite nth_update_nth_eq by exact Hlt. reflexivity. }
    assert (Hid2 : forall c', container_id (deref c' s2) = container_id (deref c' s)).
    { intros c'. apply (deref_set_status_id c c' st (record_event (EvReload k) s) s2).
      reflexivity. }
    assert (Hlen : length (heap s2) = length (heap s)).
    { unfold s2. simpl. apply length_update_nth. }
    rewrite Hst. destruct (String.eqb st "running"); simpl.
    + unfold ret. eexists. split; [reflexivity|]. repeat split; auto.
    + unfold containers_pop, bind, gets, modify. rewrite Hid2, Hid.
      change (containers s2) with (containers s). rewrite Hpop.
      eexists. split; [reflexivity|]. repeat split; auto.
Qed.

Lemma registry_wf_sub (s s' : State) :
  registry_wf s ->
  NoDup (dict_keys (containers s')) ->
  incl (containers s') (containers s) ->
  length (heap s') = length (heap s) ->
  (forall c', container_id (deref c' s') = container_id (deref c' s)) ->
  registry_wf s'.
Proof.
  intros [_ Hent] Hnd Hincl Hlen Hid. split; [exact Hnd|].
  intros k c Hin. destruct (Hent k c (Hincl _ Hin)) as [Hlt Hk].
  rewrite Hlen, Hid. auto.
Qed.

(** The loop over the snapshot, started on the entries [rest] still to
    visit, [pre] being the entries already kept. *)
Lemma reconcile_loop (rest pre : dict ref) (s : State) :
  containers s = pre ++ rest ->
  registry_wf s ->
  exists s',
    for_each (dict_values rest) (remove_if_stopped env) s = (inr tt, s') /\
    containers s' = pre ++ reconciled env (history s) rest /\
    history s' = history s ++ map EvReload (dict_keys rest) /\
    latest_tags s' = latest_tags s /\
    min_supported_tag s' = min_supported_tag s /\
    registry_wf s'.
Proof.
  revert pre s. induction rest as [|[k c] rest IH]; intros pre s Hc Hwf.
  - exists s. simpl. rewrite !app_nil_r. rewrite app_nil_r in Hc.
    split; [reflexivity|]. split; [exact Hc|]. do 3 (split; [reflexivity|]). exact Hwf.
  - destruct (remove_if_stopped_entry pre rest k c s Hc Hwf)
      as (s1 & Hrun & Hc1 & Hh1 & Ht1 & Hm1 & Hlen1 & Hid1).
    set (keep := if observed_running (container_reload env (history s) k)
                 then [(k, c)] else []).
    assert (Hc1' : containers s1 = (pre ++ keep) ++ rest).
    { rewrite Hc1. unfold keep. rewrite <- app_assoc.
      destruct (observed_running _); reflexivity. }
    assert (Hwf1 : registry_wf s1).
    { apply (registry_wf_sub s s1 Hwf); auto.
      - destruct Hwf as [Hnd _]. rewrite Hc in Hnd. rewrite Hc1.
        unfold dict_keys in *. rewrite map_app in *.
        destruct (observed_running _); [exact Hnd|].
        simpl in Hnd. apply NoDup_remove_1 in Hnd. exact Hnd.
      - rewrite Hc, Hc1. intros x Hx. apply in_app_or in Hx. apply in_or_app.
        destruct Hx as [Hx|Hx]; [left; exact Hx|right].
        destruct (observed_running _); [exact Hx|right; exact Hx]. }
    destruct (IH (pre ++ keep) s1 Hc1' Hwf1) as (s' & Hrun' & Hc' & Hh' & Ht' & Hm' & Hwf').
    exists s'. split.
    { simpl. erewrite bind_inr by exact Hrun. exact Hrun'. }
    split.
    { rewrite Hc', Hh1. simpl. unfold keep. rewrite <- app_assoc.
      destruct (observed_running _); reflexivity. }
    split.
    { rewrite Hh', Hh1. simpl. rewrite <- app_assoc. reflexivity. }
    do 2 (split; [congruence|]). exact Hwf'.
Qed.

(** The pure description of the outcome, entry by entry. *)
Lemma reconciled_incl (h : list event) (d : dict ref) :
  incl (reconciled env h d) d.
Proof.
  revert h. induction d as [|[k c] d IH]; intros h x Hx; simpl in *.
  - exact Hx.
  - destruct (observed_running _).
    + destruct Hx as [Hx|Hx]; [left; exact Hx | right; eapply IH; exact Hx].
    + right. eapply IH; exact Hx.
Qed.

Lemma reconciled_entry (d : dict ref) (h : list event) (i : nat) (k : string) (c : ref) :
  NoDup (dict_keys d) ->
  nth_error d i = Some (k, c) ->
  if observed_running
       (container_reload env (h ++ map EvReload (firstn i (dict_keys d))) k)
  then In (k, c) (reconciled env h d)
  else ~ In k (dict_keys (reconciled env h d)).
Proof.
  revert h i. induction d as [|[k0 c0] d IH]; intros h i Hnd Hi.
  - destruct i; discriminate.
  - simpl in Hnd. inversion Hnd as [|? ? Hk0 Hnd']; subst.
    destruct i as [|i]; simpl in Hi.
    + inversion Hi; subst. simpl. rewrite app_nil_r.
      destruct (observed_running _); [left; reflexivity|].
      intros Hin. apply Hk0. unfold dict_keys in *.
      apply in_map_iff in Hin. destruct Hin as ([k' c'] & Hk' & Hin). simpl in Hk'. subst.
      apply in_map_iff. exists (k, c'). split; [reflexivity|].
      eapply reconciled_incl; exact Hin.
    + specialize (IH (h ++ [EvReload k0]) i Hnd' Hi).
      simpl. rewrite <- app_assoc in IH. simpl in IH.
      destruct (observed_running
                  (container_reload env (h ++ EvReload k0 :: map EvReload (firstn i (dict_keys d))) k)).
      * destruct (observed_running (container_reload env h k0)); [right|]; exact IH.
      * destruct (observed_running (container_reload env h k0)); [|exact IH].
        simpl. intros [Heq|Hin]; [|exact (IH Hin)].
        subst k0. apply Hk0. apply nth_error_In in Hi.
        unfold dict_keys. apply in_map_iff. exists (k, c). split; [reflexivity|exact Hi].
Qed.

End Reconciliation.

(** ** Concrete registries are well formed *)

Ltac solve_registry_wf :=
  split;
  [ repeat constructor; simpl; intuition discriminate
  | simpl; intros ? ? Hin;
    repeat (destruct Hin as [Hin|Hin]; [inversion Hin; subst; split; [simpl; lia | reflexivity] | ]);
    destruct Hin ].

Lemma fleet_state_wf : registry_wf fleet_state.
Proof. solve_registry_wf. Qed.

Lemma primed_state_wf : registry_wf primed_state.
Proof. solve_registry_wf. Qed.

(** ** C10: reconciliation *)

(** C10. Reconciliation of a well-formed registry never raises: it returns
    normally, an entry is kept exactly when the reload of its container,
    made in turn, reports the status running (a reload that raises or
    reports any other status removes the entry), the kept entries are
    entries of the original registry in their original order, the catalog
    is untouched and the only calls made are one reload per tracked
    container. *)
Theorem remove_stopped_containers_prunes_stopped
        {SV : SemVer} (env : Env) (s : State) :
  registry_wf s ->
  exists s',
    remove_stopped_containers env s = (inr tt, s') /\
    (forall i k c,
        nth_error (containers s) i = Some (k, c) ->
        if observed_running
             (container_reload env
                (history s ++ map EvReload (firstn i (dict_keys (containers s)))) k)
        then In (k, c) (containers s')
        else ~ In k (dict_keys (containers s'))) /\
    containers s' = reconciled env (history s) (containers s) /\
    incl (containers s') (containers s) /\
    latest_tags s' = latest_tags s /\
    min_supported_tag s' = min_supported_tag s /\
    history s' = history s ++ map EvReload (dict_keys (containers s)) /\
    registry_wf s'.
Proof.
  intros Hwf.
  destruct (reconcile_loop env (containers s) [] s eq_refl Hwf)
    as (s' & Hrun & Hc & Hh & Ht & Hm & Hwf').
  simpl in Hc.
  exists s'. split.
  { unfold remove_stopped_containers, bind, gets. exact Hrun. }
  split.
  { intros i k c Hi. rewrite Hc. apply reconciled_entry; [apply Hwf | exact Hi]. }
  split; [exact Hc|].
  split; [rewrite Hc; apply reconciled_incl|].
  auto.
Qed.

Lemma remove_stopped_containers_prunes_stopped_witness :
  exists s',
    remove_stopped_containers fleet_env fleet_state = (inr tt, s') /\
    containers s' = [("a", 0%nat)].
Proof.
  destruct (remove_stopped_containers_prunes_stopped fleet_env fleet_state)
    as (s' & Hrun & _ & Hc & _).
  - solve_registry_wf.
  - exists s'. split; [exact Hrun | exact Hc].
Defined.

(** ** Catalog refresh *)

Section Refresh.
Context {SV : SemVer}.
Variable env : Env.

(** The refresh, by the answer of the registry. *)
Lemma get_latest_image_tags_run (user repo : string) (s : State) :
  get_latest_image_tags env user repo s =
    let s1 := record_event (EvGet (DOCKER_HUB_URL user repo) MAX_TAGS) s in
    match requests_get env (history s) (DOCKER_HUB_URL user repo) MAX_TAGS with
    | inl e => (inl e, s1)
    | inr req =>
        if status_code req =? 200
        then match json_names req with
             | inl e => (inl e, s1)
             | inr names =>
                 (inr tt, set_catalog (fst (scan_tags names [] None))
                                      (snd (scan_tags names [] None)) s1)
             end
        else (inr tt, s1)
    end.
Proof.
  unfold get_latest_image_tags, bind, call. cbv zeta.
  destruct (requests_get env (history s) (DOCKER_HUB_URL user repo) MAX_TAGS) as [e|req];
    [reflexivity|].
  destruct (status_code req =? 200); simpl; [|reflexivity].
  destruct (json_names req) as [e|names]; [reflexivity|].
  destruct (scan_tags names [] None) as [tags min_tag]. reflexivity.
Qed.

(** A refresh makes exactly one registry call and never touches the fleet. *)
Lemma get_latest_image_tags_effects (user repo : string) (s : State) r s' :
  get_latest_image_tags env user repo s = (r, s') ->
  containers s' = containers s /\ heap s' = heap s /\
  history s' = history s ++ [EvGet (DOCKER_HUB_URL user repo) MAX_TAGS].
Proof.
  rewrite get_latest_image_tags_run. cbv zeta.
  destruct (requests_get _ _ _ _) as [e|req].
  - intros E; inversion E; subst; auto.
  - destruct (status_code req =? 200).
    + destruct (json_names req) as [e|names]; intros E; inversion E; subst; auto.
    + intros E; inversion E; subst; auto.
Qed.

(** The list built by the loop: the accumulator followed by the names that
    parse, in order. *)
Lemma scan_tags_fst (names : list string) (tags : list Version) (min_tag : option Version) :
  fst (scan_tags names tags min_tag) = tags ++ parsed_versions names.
Proof.
  revert tags min_tag. induction names as [|name names IH]; intros tags min_tag; simpl.
  - rewrite app_nil_r. reflexivity.
  - destruct (version_parse name) as [v|]; simpl.
    + rewrite IH, <- app_assoc. reflexivity.
    + apply IH.
Qed.

Lemma scan_tags_min_invariant `{!SemVerOrder SV}
      (names : list string) (tags : list Version) (min_tag : option Version) :
  min_invariant tags min_tag ->
  min_invariant (fst (scan_tags names tags min_tag)) (snd (scan_tags names tags min_tag)).
Proof.
  revert tags min_tag. induction names as [|name names IH]; intros tags min_tag Hinv; simpl.
  - exact Hinv.
  - destruct (version_parse name) as [v|]; [|apply IH; exact Hinv].
    apply IH. destruct min_tag as [m|]; simpl in *.
    + destruct Hinv as [Hin Hmin].
      rewrite version_gt_lt. destruct (version_lt v m) eqn:Elt; simpl.
      * split; [apply in_or_app; right; left; reflexivity|].
        intros x Hx. apply in_app_or in Hx. destruct Hx as [Hx|[<-|[]]].
        -- destruct (version_lt x v) eqn:Exv; [|reflexivity].
           rewrite <- (Hmin x Hx). symmetry. eapply version_lt_trans; eassumption.
        -- apply version_lt_irrefl.
      * split; [apply in_or_app; left; exact Hin|].
        intros x Hx. apply in_app_or in Hx. destruct Hx as [Hx|[<-|[]]]; auto.
    + subst tags. simpl. split; [left; reflexivity|].
      intros x [<-|[]]. apply version_lt_irrefl.
Qed.

End Refresh.

(** ** C4: a failed refresh *)

(** C4 (amended). A refresh whose registry call does not succeed leaves
    the supported list and the minimum exactly as they were.  It returns
    normally when the registry answered with a status other than 200; an
    exception raised by [requests.get] itself, or by reading the body of a
    200 answer, propagates to the caller.  A refresh whose call succeeds
    returns normally and sets the supported list and the minimum together,
    both from the one scan of the returned names. *)
Theorem get_latest_image_tags_failure_keeps_catalog
        {SV : SemVer} (env : Env) (user repo : string) (s : State) r s' :
  get_latest_image_tags env user repo s = (r, s') ->
  match requests_get env (history s) (DOCKER_HUB_URL user repo) MAX_TAGS with
  | inl e =>
      r = inl e /\
      latest_tags s' = latest_tags s /\ min_supported_tag s' = min_supported_tag s
  | inr resp =>
      if status_code resp =? 200 then
        match json_names resp with
        | inl e =>
            r = inl e /\
            latest_tags s' = latest_tags s /\ min_supported_tag s' = min_supported_tag s
        | inr names =>
            r = inr tt /\
            (latest_tags s', min_supported_tag s') = scan_tags names [] None
        end
      else
        r = inr tt /\
        latest_tags s' = latest_tags s /\ min_supported_tag s' = min_supported_tag s
  end.
Proof.
  rewrite get_latest_image_tags_run. cbv zeta.
  destruct (requests_get env (history s) (DOCKER_HUB_URL user repo) MAX_TAGS) as [e|resp].
  - intros E. inversion E; subst. auto.
  - destruct (status_code resp =? 200).
    + destruct (json_names resp) as [e|names]; intros E; inversion E; subst; simpl; auto.
      split; [reflexivity|]. destruct (scan_tags names [] None); reflexivity.
    + intros E. inversion E; subst. auto.
Qed.

Lemma get_latest_image_tags_failure_keeps_catalog_witness :
  fst (get_latest_image_tags hub_unavailable_env DOCKER_USER DOCKER_REPO primed_state)
  = inr tt /\
  latest_tags (snd (get_latest_image_tags hub_unavailable_env DOCKER_USER DOCKER_REPO
                                          primed_state)) = [v120; v100] /\
  min_supported_tag (snd (get_latest_image_tags hub_unavailable_env DOCKER_USER DOCKER_REPO
                                                primed_state)) = Some v100.
Proof.
  exact (get_latest_image_tags_failure_keeps_catalog
           hub_unavailable_env DOCKER_USER DOCKER_REPO primed_state
           (fst (get_latest_image_tags hub_unavailable_env DOCKER_USER DOCKER_REPO
                                       primed_state))
           (snd (get_latest_image_tags hub_unavailable_env DOCKER_USER DOCKER_REPO
                                       primed_state))
           eq_refl).
Defined.

(** C4, as stated, fails when Docker Hub is unreachable: the registry call
    does not succeed and the refresh raises the [ConnectionError] of
    [requests.get] instead of returning. *)
Lemma get_latest_image_tags_connection_error_propagates :
  registry_call_succeeded
    (requests_get hub_down_env (history primed_state)
                  (DOCKER_HUB_URL DOCKER_USER DOCKER_REPO) MAX_TAGS) = false /\
  fst (get_latest_image_tags hub_down_env DOCKER_USER DOCKER_REPO primed_state)
  = inl (Raised ConnectionError "Max retries exceeded with url").
Proof. split; reflexivity. Qed.

(** ** C8: the catalog after a successful refresh *)

(** C8 (amended). After a successful refresh the supported list is exactly
    the returned tag names that parse as versions, in order, nothing of the
    previous catalog being kept; the minimum is absent exactly when none of
    the returned names parses, and otherwise it is a member of the
    supported list that no member precedes in version order. *)
Theorem get_latest_image_tags_success_catalog
        {SV : SemVer} `{!SemVerOrder SV} (env : Env) (user repo : string) (s : State)
        (names : list string) :
  requests_get env (history s) (DOCKER_HUB_URL user repo) MAX_TAGS
  = inr {| status_code := 200; json_names := inr names |} ->
  exists s',
    get_latest_image_tags env user repo s = (inr tt, s') /\
    latest_tags s' = parsed_versions names /\
    (forall v, In v (latest_tags s') <->
               exists name, In name names /\ version_parse name = Some v) /\
    match min_supported_tag s' with
    | None => forall name, In name names -> version_parse name = None
    | Some m =>
        In m (latest_tags s') /\
        forall v, In v (latest_tags s') -> version_lt v m = false
    end.
Proof.
  intros Hget. rewrite get_latest_image_tags_run. cbv zeta. rewrite Hget. simpl.
  eexists. split; [reflexivity|]. simpl.
  pose proof (scan_tags_fst names [] None) as Hfst. simpl in Hfst.
  pose proof (scan_tags_min_invariant names [] None eq_refl) as Hinv.
  rewrite Hfst in *.
  assert (Hmem : forall v, In v (parsed_versions names) <->
                           exists name, In name names /\ version_parse name = Some v).
  { intros v. unfold parsed_versions. rewrite in_flat_map. split.
    - intros (name & Hin & Hv). exists name. split; [exact Hin|].
      destruct (version_parse name) as [w|]; [|destruct Hv].
      destruct Hv as [->|[]]. reflexivity.
    - intros (name & Hin & Hv). exists name. split; [exact Hin|].
      rewrite Hv. left. reflexivity. }
  split; [reflexivity|]. split; [exact Hmem|].
  destruct (snd (scan_tags names [] None)) as [m|]; simpl in Hinv.
  - exact Hinv.
  - intros name Hin. destruct (version_parse name) as [v|] eqn:Ev; [|reflexivity].
    exfalso. assert (Hv : In v (parsed_versions names)) by (apply Hmem; eauto).
    rewrite Hinv in Hv. exact Hv.
Qed.

Lemma get_latest_image_tags_success_catalog_witness :
  exists s',
    get_latest_image_tags hub_ok_env DOCKER_USER DOCKER_REPO initial_state = (inr tt, s') /\
    latest_tags s' = [v120; v100].
Proof.
  destruct (get_latest_image_tags_success_catalog
              (SV := ReleaseVersion) hub_ok_env DOCKER_USER DOCKER_REPO initial_state
              ["latest"; "1.2.0"; "1.0.0"] eq_refl)
    as (s' & Hrun & Htags & _).
  exists s'. split; [exact Hrun | exact Htags].
Defined.

(** C8, as stated, fails on a successful refresh that returns no parseable
    tag name: the catalog, populated before, is replaced by the empty list
    and the minimum becomes absent. *)
Lemma get_latest_image_tags_no_parseable_tag_no_minimum :
  min_supported_tag primed_state = Some v100 /\
  registry_call_succeeded
    (requests_get hub_latest_only_env (history primed_state)
                  (DOCKER_HUB_URL DOCKER_USER DOCKER_REPO) MAX_TAGS) = true /\
  fst (get_latest_image_tags hub_latest_only_env DOCKER_USER DOCKER_REPO primed_state)
  = inr tt /\
  min_supported_tag
    (snd (get_latest_image_tags hub_latest_only_env DOCKER_USER DOCKER_REPO primed_state))
  = None.
Proof. repeat split; reflexivity. Qed.

(** ** Image provisioning *)

Section Provisioning.
Context {SV : SemVer}.
Variable env : Env.

Lemma check_images_pulled_cons (image : string) (tag : Version) (tags : list Version)
      (s : State) :
  check_images_pulled env image (tag :: tags) s =
    match images_pull env (history s) image (version_str tag) with
    | inl e => (inl e, record_event (pull_event image tag) s)
    | inr _ => check_images_pulled env image tags (record_event (pull_event image tag) s)
    end.
Proof.
  unfold check_images_pulled. simpl. unfold bind, call.
  destruct (images_pull env (history s) image (version_str tag)); reflexivity.
Qed.

(** A run of the loop that returns has asked for every tag, in order, and
    changed nothing else. *)
Lemma check_images_pulled_returns (image : string) (tags : list Version) (s s' : State) :
  check_images_pulled env image tags s = (inr tt, s') ->
  history s' = history s ++ map (pull_event image) tags /\
  containers s' = containers s /\ heap s' = heap s /\
  latest_tags s' = latest_tags s /\ min_supported_tag s' = min_supported_tag s.
Proof.
  revert s. induction tags as [|tag tags IH]; intros s.
  - intros E. inversion E; subst. rewrite app_nil_r. auto.
  - rewrite check_images_pulled_cons.
    destruct (images_pull env (history s) image (version_str tag)); [discriminate|].
    intros E. apply IH in E. simpl in E.
    destruct E as (Hh & Hc & Hp & Ht & Hm).
    rewrite Hh, <- app_assoc. auto.
Qed.

(** A run of the loop that raises stopped at the first tag whose pull
    failed: the tags after it were not asked for. *)
Lemma check_images_pulled_raises (image : string) (tags : list Version) (s s' : State) e :
  check_images_pulled env image tags s = (inl e, s') ->
  exists done tag rest,
    tags = done ++ tag :: rest /\
    images_pull env (history s ++ map (pull_event image) done) image (version_str tag)
    = inl e /\
    history s' = history s ++ map (pull_event image) (done ++ [tag]) /\
    containers s' = containers s /\ heap s' = heap s /\
    latest_tags s' = latest_tags s /\ min_supported_tag s' = min_supported_tag s.
Proof.
  revert s. induction tags as [|tag tags IH]; intros s.
  - intros E. inversion E.
  - rewrite check_images_pulled_cons.
    destruct (images_pull env (history s) image (version_str tag)) as [e'|[]] eqn:Epull.
    + intros E. inversion E; subst. exists [], tag, tags. simpl.
      rewrite app_nil_r. auto 10.
    + intros E. apply IH in E.
      destruct E as (done & tag' & rest & -> & Hpull & Hh & Hc & Hp & Ht & Hm).
      simpl in *. exists (tag :: done), tag', rest. simpl.
      rewrite <- app_assoc in Hpull, Hh. simpl in Hpull, Hh. auto 10.
Qed.

Lemma check_images_pulled_effects (image : string) (tags : list Version) :
  preserves (extends_by is_pull) (check_images_pulled env image tags).
Proof.
  apply preserves_for_each.
  - apply extends_by_refl.
  - apply extends_by_trans.
  - intros tag. apply preserves_call. reflexivity.
Qed.

Lemma count_events_app (p : event -> bool) (h1 h2 : list event) :
  count_events p (h1 ++ h2) = (count_events p h1 + count_events p h2)%nat.
Proof. unfold count_events. rewrite filter_app, length_app. reflexivity. Qed.

Lemma count_pull_events (image : string) (tags : list Version) :
  count_events is_pull (map (pull_event image) tags) = length tags.
Proof.
  unfold count_events. induction tags as [|tag tags IH]; simpl; [reflexivity|].
  rewrite IH. reflexivity.
Qed.

End Provisioning.

(** ** C7: pulling twice *)

(** C7 (amended). [check_images_pulled] makes no check for local presence:
    every call asks the runtime to pull every tag it is given.  Two calls
    in succession with the same image and tags, both returning, make the
    pull requests for all the tags twice, in order; what a repeated pull
    costs is left to the runtime. *)
Theorem check_images_pulled_twice_pulls_twice
        {SV : SemVer} (env : Env) (image : string) (tags : list Version)
        (s s1 s2 : State) :
  check_images_pulled env image tags s = (inr tt, s1) ->
  check_images_pulled env image tags s1 = (inr tt, s2) ->
  history s2 = history s ++ map (pull_event image) tags ++ map (pull_event image) tags /\
  count_events is_pull (history s2)
  = (count_events is_pull (history s) + 2 * length tags)%nat.
Proof.
  intros E1 E2.
  apply check_images_pulled_returns in E1. destruct E1 as (Hh1 & _).
  apply check_images_pulled_returns in E2. destruct E2 as (Hh2 & _).
  assert (Hh : history s2
               = history s ++ map (pull_event image) tags ++ map (pull_event image) tags).
  { rewrite Hh2, Hh1, <- app_assoc. reflexivity. }
  split; [exact Hh|].
  rewrite Hh, !count_events_app, count_pull_events. lia.
Qed.

Lemma check_images_pulled_twice_pulls_twice_witness :
  count_events is_pull
    (history (snd (check_images_pulled hub_ok_env IMAGE_NAME [v120]
                     (snd (check_images_pulled hub_ok_env IMAGE_NAME [v120] initial_state)))))
  = 2%nat.
Proof.
  exact (proj2 (check_images_pulled_twice_pulls_twice
                  hub_ok_env IMAGE_NAME [v120] initial_state
                  (snd (check_images_pulled hub_ok_env IMAGE_NAME [v120] initial_state))
                  (snd (check_images_pulled hub_ok_env IMAGE_NAME [v120]
                          (snd (check_images_pulled hub_ok_env IMAGE_NAME [v120]
                                                    initial_state))))
                  eq_refl eq_refl)).
Defined.

(** C7, as stated, fails: two calls in succession for 1.2.0 reach the
    runtime as two pull requests, and the second call is not a no-op, it
    changes the history of calls. *)
Lemma check_images_pulled_second_call_pulls_again :
  let s1 := snd (check_images_pulled hub_ok_env IMAGE_NAME [v120] initial_state) in
  let s2 := snd (check_images_pulled hub_ok_env IMAGE_NAME [v120] s1) in
  history s1 = [EvPull "stuxgames/flappierace" "1.2.0"] /\
  history s2 = [EvPull "stuxgames/flappierace" "1.2.0";
                EvPull "stuxgames/flappierace" "1.2.0"] /\
  ~ (count_events is_pull (history s2) <= 1)%nat.
Proof.
  cbv zeta. split; [reflexivity|]. split; [reflexivity|].
  vm_compute. intros H. inversion H as [|? H1]. inversion H1.
Qed.

(** ** Container creation *)

Section Creation.
Context {SV : SemVer}.
Variable env : Env.
Variable game_request : GameRequest.

(** An image-missing error is an [APIError]. *)
Lemma isinstance_ImageNotFound_APIError (e : exn) :
  isinstance e ImageNotFound = true -> isinstance e APIError = true.
Proof.
  unfold isinstance. destruct (class_of e); simpl; intros H; try discriminate; reflexivity.
Qed.

(** A refused attempt asks for the next one and leaves the state of the
    definition of [attempt_fails]. *)
Lemma create_attempt_fails (attempt : nat) (s s' : State) :
  attempt_fails env game_request s s' ->
  create_attempt env game_request attempt s = (inr None, s').
Proof.
  intros (port & e & Hport & Hrun & Hinst & ->).
  unfold create_attempt, try_except_else, find_free_port, bind, call.
  rewrite Hport. simpl. rewrite Hrun. simpl. rewrite Hinst. reflexivity.
Qed.

Lemma create_attempt_succeeds (attempt : nat) (s : State) (port : Z) (c : Container) :
  bind_port env (history s) = inr port ->
  containers_run env (history s ++ [EvBindPort]) (run_spec game_request port) = inr c ->
  create_attempt env game_request attempt s
  = (inr (Some port), started game_request port c s).
Proof.
  intros Hport Hrun.
  unfold create_attempt, try_except_else, find_free_port, bind, call.
  rewrite Hport. simpl. rewrite Hrun. simpl.
  unfold started, deref. simpl. rewrite nth_middle. reflexivity.
Qed.

(** Failed attempts consume the head of the loop. *)
Lemma create_loop_failed (n : nat) (s s1 : State) :
  failed_attempts env game_request n s s1 ->
  forall pre rest, length pre = n ->
    create_loop env game_request (pre ++ rest) s = create_loop env game_request rest s1.
Proof.
  induction 1 as [s|n s s1 s2 Hfail _ IH]; intros pre rest Hlen.
  - destruct pre; [reflexivity|discriminate].
  - destruct pre as [|attempt pre]; [discriminate|]. simpl.
    erewrite bind_inr by (apply create_attempt_fails; exact Hfail).
    apply IH. simpl in Hlen. lia.
Qed.

(** What failed attempts leave behind: one port allocation and one run
    request each, and nothing registered. *)
Lemma failed_attempts_effects (n : nat) (s s1 : State) :
  failed_attempts env game_request n s s1 ->
  containers s1 = containers s /\ heap s1 = heap s /\
  latest_tags s1 = latest_tags s /\ min_supported_tag s1 = min_supported_tag s /\
  count_events is_bind (history s1) = (count_events is_bind (history s) + n)%nat /\
  count_events is_run (history s1) = (count_events is_run (history s) + n)%nat /\
  count_events is_pull (history s1) = count_events is_pull (history s).
Proof.
  induction 1 as [s|n s s1 s2 (port & e & _ & _ & _ & ->) _ IH].
  - repeat split; lia.
  - destruct IH as (Hc & Hp & Ht & Hm & Hb & Hr & Hpl). simpl in *.
    rewrite Hb, Hr, Hpl, !count_events_app. unfold count_events. simpl.
    repeat split; auto; lia.
Qed.

(** On a runtime that refuses every run request, any number of attempts
    in a row fail. *)
Lemma failed_attempts_always_refused :
  (forall h, exists port, bind_port env h = inr port) ->
  (forall h spec, exists e, containers_run env h spec = inl e /\ isinstance e APIError = true) ->
  forall n s, exists s1, failed_attempts env game_request n s s1.
Proof.
  intros Hport Hrun n. induction n as [|n IH]; intros s.
  - exists s. apply failed_none.
  - destruct (Hport (history s)) as (port & Hp).
    destruct (Hrun (history s ++ [EvBindPort]) (run_spec game_request port)) as (e & He & Hi).
    destruct (IH (record_event (EvRun (run_spec game_request port))
                               (record_event EvBindPort s))) as (s1 & Hs1).
    exists s1. eapply failed_next; [|exact Hs1].
    exists port, e. auto.
Qed.

Lemma create_server_run (s s0 : State) :
  check_images_pulled env IMAGE_NAME (latest_tags s) s = (inr tt, s0) ->
  create_server env game_request s
  = create_loop env game_request (seq 0 (Z.to_nat MAX_CONTAINER_RETRIES)) s0.
Proof.
  intros Hpull. unfold create_server, bind, gets. rewrite Hpull. reflexivity.
Qed.

Lemma create_attempt_effects (attempt : nat) :
  preserves (extends_by is_launch) (create_attempt env game_request attempt).
Proof.
  pose proof (extends_by_refl is_launch) as Hrefl.
  pose proof (extends_by_trans is_launch) as Htrans.
  unfold create_attempt. apply preserves_try; auto.
  - apply preserves_bind; auto.
    { apply preserves_call. reflexivity. }
    intros port. apply preserves_bind; auto.
    { apply preserves_call. reflexivity. }
    intros c. apply preserves_bind; auto.
    { intros s r s' E. inversion E; subst. apply extends_by_same; reflexivity. }
    intros container. apply preserves_ret; auto.
  - apply Forall_cons; [|apply Forall_cons; [|apply Forall_nil]]; simpl; intros e.
    + apply preserves_ret; auto.
    + apply preserves_bind; auto; [apply preserves_gets; auto|].
      intros tags. apply preserves_bind; auto; [|intros _; apply preserves_ret; auto].
      intros s r s' E. apply check_images_pulled_effects in E.
      revert E. apply extends_by_weaken. intros ev Hev. unfold is_launch. rewrite Hev.
      reflexivity.
  - intros [port container]. apply preserves_bind; auto; [apply preserves_gets; auto|].
    intros cid. apply preserves_bind; auto; [|intros _; apply preserves_ret; auto].
    apply preserves_modify. intros s. auto.
Qed.

(** Launching makes only pulls, port allocations and run requests, and
    leaves the catalog alone. *)
Lemma create_server_effects :
  preserves (extends_by is_launch) (create_server env game_request).
Proof.
  pose proof (extends_by_refl is_launch) as Hrefl.
  pose proof (extends_by_trans is_launch) as Htrans.
  unfold create_server. apply preserves_bind; auto; [apply preserves_gets; auto|].
  intros tags. apply preserves_bind; auto.
  - intros s r s' E. apply check_images_pulled_effects in E.
    revert E. apply extends_by_weaken. intros ev Hev. unfold is_launch. rewrite Hev.
    reflexivity.
  - intros _. induction (seq 0 (Z.to_nat MAX_CONTAINER_RETRIES)) as [|attempt attempts IH];
      simpl.
    + apply preserves_raise; auto.
    + apply preserves_bind; auto; [apply create_attempt_effects|].
      intros [port|]; [apply preserves_ret; auto | exact IH].
Qed.

End Creation.

Lemma dict_get_dict_set {V} (k : string) (v : V) (d : dict V) :
  dict_get k (dict_set k v d) = Some v.
Proof.
  induction d as [|[k' v'] d IH]; simpl.
  - rewrite String.eqb_refl. reflexivity.
  - destruct (String.eqb k' k) eqn:E; simpl.
    + rewrite String.eqb_refl. reflexivity.
    + rewrite E. exact IH.
Qed.

Lemma count_events_pulls {SV : SemVer} (p : event -> bool) (image : string)
      (tags : list Version) :
  (forall repository tag, p (EvPull repository tag) = false) ->
  count_events p (map (pull_event image) tags) = O.
Proof.
  intros Hp. unfold count_events. induction tags as [|tag tags IH]; simpl; [reflexivity|].
  unfold pull_event at 1. rewrite Hp. exact IH.
Qed.

(** ** C2: the retry bound *)

(** C2. For a request that reaches container creation (the provisioning
    pulls returned): if MAX_CONTAINER_RETRIES attempts in a row are refused
    by the runtime with an [APIError], [create_server] raises the exception
    reporting 10 attempts, having made exactly 10 port allocations and 10
    run requests and registered nothing; if fewer than
    MAX_CONTAINER_RETRIES attempts are refused and the next one is
    accepted, [create_server] returns the port allocated in that attempt
    and the new container is registered under its id. *)
Theorem create_server_retry_bound
        {SV : SemVer} (env : Env) (game_request : GameRequest) (s s0 : State) :
  check_images_pulled env IMAGE_NAME (latest_tags s) s = (inr tt, s0) ->
  (forall s1,
      failed_attempts env game_request (Z.to_nat MAX_CONTAINER_RETRIES) s0 s1 ->
      create_server env game_request s = (inl launch_failed, s1) /\
      containers s1 = containers s /\
      count_events is_bind (history s1)
      = (count_events is_bind (history s) + Z.to_nat MAX_CONTAINER_RETRIES)%nat /\
      count_events is_run (history s1)
      = (count_events is_run (history s) + Z.to_nat MAX_CONTAINER_RETRIES)%nat) /\
  (forall n s1 port c,
      (n < Z.to_nat MAX_CONTAINER_RETRIES)%nat ->
      failed_attempts env game_request n s0 s1 ->
      bind_port env (history s1) = inr port ->
      containers_run env (history s1 ++ [EvBindPort]) (run_spec game_request port) = inr c ->
      let s' := started game_request port c s1 in
      create_server env game_request s = (inr port, s') /\
      dict_get (container_id c) (containers s') = Some (length (heap s1)) /\
      deref (length (heap s1)) s' = c /\
      count_events is_bind (history s') = (count_events is_bind (history s) + n + 1)%nat /\
      count_events is_run (history s') = (count_events is_run (history s) + n + 1)%nat).
Proof.
  intros Hpull.
  pose proof (check_images_pulled_returns env _ _ _ _ Hpull) as (Hh0 & Hc0 & _).
  assert (Hb0 : count_events is_bind (history s0) = count_events is_bind (history s)).
  { rewrite Hh0, count_events_app, count_events_pulls by reflexivity. lia. }
  assert (Hr0 : count_events is_run (history s0) = count_events is_run (history s)).
  { rewrite Hh0, count_events_app, count_events_pulls by reflexivity. lia. }
  rewrite (create_server_run env game_request s s0 Hpull).
  split.
  - intros s1 Hfail.
    pose proof (failed_attempts_effects env game_request _ _ _ Hfail)
      as (Hc & _ & _ & _ & Hb & Hr & _).
    split.
    + rewrite <- (app_nil_r (seq 0 (Z.to_nat MAX_CONTAINER_RETRIES))).
      rewrite (create_loop_failed env game_request _ _ _ Hfail) by apply length_seq.
      reflexivity.
    + split; [congruence|]. split; congruence.
  - intros n s1 port c Hn Hfail Hport Hrun s'.
    pose proof (failed_attempts_effects env game_request _ _ _ Hfail)
      as (_ & _ & _ & _ & Hb & Hr & _).
    split.
    + replace (Z.to_nat MAX_CONTAINER_RETRIES)
        with (n + S (Z.to_nat MAX_CONTAINER_RETRIES - S n))%nat by lia.
      rewrite seq_app.
      rewrite (create_loop_failed env game_request _ _ _ Hfail) by apply length_seq.
      simpl.
      erewrite bind_inr by (apply create_attempt_succeeds; eassumption).
      reflexivity.
    + unfold s', started. simpl. split; [apply dict_get_dict_set|].
      split; [unfold deref; simpl; apply nth_middle|].
      rewrite !count_events_app, Hb, Hr, Hb0, Hr0. unfold count_events. simpl.
      split; lia.
Qed.

Lemma create_server_retry_bound_witness :
  exists s',
    create_server flaky_env request_120 primed_state = (inr 40002, s') /\
    dict_get "c2" (containers s') = Some O.
Proof.
  destruct (create_server_retry_bound
              flaky_env request_120 primed_state
              (snd (check_images_pulled flaky_env IMAGE_NAME (latest_tags primed_state)
                                        primed_state))
              eq_refl) as [_ Hsucc].
  destruct (Hsucc 2%nat
                  (snd (create_attempt flaky_env request_120 1
                          (snd (create_attempt flaky_env request_120 0
                                  (snd (check_images_pulled flaky_env IMAGE_NAME
                                          (latest_tags primed_state) primed_state))))))
                  40002
                  {| container_id := "c2"; container_status := "created" |})
    as (Hrun & Hget & _).
  - vm_compute. lia.
  - eapply failed_next.
    + eexists _, _. split; [reflexivity|]. split; [reflexivity|]. split; reflexivity.
    + eapply failed_next.
      * eexists _, _. split; [reflexivity|]. split; [reflexivity|]. split; reflexivity.
      * apply failed_none.
  - reflexivity.
  - reflexivity.
  - eexists. split; [exact Hrun | exact Hget].
Defined.

(** On a runtime that refuses every run request the launch gives up after
    ten attempts, each with a port allocation of its own. *)
Example create_server_always_refused :
  fst (create_server refusing_env request_120 primed_state) = inl launch_failed /\
  count_events is_bind (history (snd (create_server refusing_env request_120 primed_state)))
  = 10%nat /\
  count_events is_run (history (snd (create_server refusing_env request_120 primed_state)))
  = 10%nat /\
  containers (snd (create_server refusing_env request_120 primed_state)) = [].
Proof. repeat split; vm_compute; reflexivity. Qed.

(** ** C6: an attempt that finds the image missing *)

(** C6 (what the code does). An attempt whose run request fails with an
    image-missing error is handled by the [except docker.errors.APIError]
    clause, which comes first and matches because [ImageNotFound] derives
    from [APIError]: the attempt ends after the port allocation and the run
    request, no pull is made before the next attempt. *)
Theorem create_attempt_image_missing_no_pull
        {SV : SemVer} (env : Env) (game_request : GameRequest) (attempt : nat)
        (s : State) (port : Z) (e : exn) :
  bind_port env (history s) = inr port ->
  containers_run env (history s ++ [EvBindPort]) (run_spec game_request port) = inl e ->
  isinstance e ImageNotFound = true ->
  exists s',
    create_attempt env game_request attempt s = (inr None, s') /\
    history s' = history s ++ [EvBindPort; EvRun (run_spec game_request port)] /\
    count_events is_pull (history s') = count_events is_pull (history s).
Proof.
  intros Hport Hrun Hinst.
  apply isinstance_ImageNotFound_APIError in Hinst.
  eexists. split.
  - apply create_attempt_fails. exists port, e. repeat split; eassumption.
  - simpl. rewrite <- app_assoc. split; [reflexivity|].
    rewrite count_events_app. unfold count_events. simpl. lia.
Qed.

Lemma create_attempt_image_missing_no_pull_witness :
  exists s',
    create_attempt evicted_env request_120 0 primed_state = (inr None, s') /\
    history s' = [EvBindPort; EvRun (run_spec request_120 40000)].
Proof.
  destruct (create_attempt_image_missing_no_pull
              evicted_env request_120 0 primed_state 40000
              (Raised ImageNotFound "404 Client Error: No such image")
              eq_refl eq_refl eq_refl) as (s' & Hrun & Hh & _).
  exists s'. split; [exact Hrun | exact Hh].
Defined.

(** The whole launch on a runtime that finds the image missing once: the
    two provisioning pulls, the refused attempt, and directly the second
    attempt, with no pull in between. *)
Example create_server_image_missing_run :
  fst (create_server evicted_env request_120 primed_state) = inr 40001 /\
  history (snd (create_server evicted_env request_120 primed_state))
  = [EvPull "stuxgames/flappierace" "1.2.0"; EvPull "stuxgames/flappierace" "1.0.0";
     EvBindPort; EvRun (run_spec request_120 40000);
     EvBindPort; EvRun (run_spec request_120 40001)].
Proof. split; reflexivity. Qed.

(** ** C5: a pull failure during provisioning *)

(** C5 (amended). A pull failure during provisioning fails the launch at
    once: [create_server] raises the exception of the pull, before any
    creation attempt, so no port is allocated, no run request is made and
    nothing is registered; it is not retried. *)
Theorem create_server_pull_failure_propagates
        {SV : SemVer} (env : Env) (game_request : GameRequest) (s s1 : State) (e : exn) :
  check_images_pulled env IMAGE_NAME (latest_tags s) s = (inl e, s1) ->
  create_server env game_request s = (inl e, s1) /\
  containers s1 = containers s /\
  count_events is_bind (history s1) = count_events is_bind (history s) /\
  count_events is_run (history s1) = count_events is_run (history s).
Proof.
  intros Hpull. split.
  - unfold create_server, bind, gets. rewrite Hpull. reflexivity.
  - apply check_images_pulled_raises in Hpull.
    destruct Hpull as (done & tag & rest & _ & _ & Hh & Hc & _).
    split; [exact Hc|].
    rewrite Hh, !count_events_app, !count_events_pulls by reflexivity. lia.
Qed.

Lemma create_server_pull_failure_propagates_witness :
  create_server pull_fails_env request_120 primed_state
  = (inl (Raised APIError "500 Server Error: toomanyrequests"),
     record_event (EvPull IMAGE_NAME "1.2.0") primed_state).
Proof.
  exact (proj1 (create_server_pull_failure_propagates
                  pull_fails_env request_120 primed_state _ _ eq_refl)).
Defined.

(** ** Request handling *)

Section Handler.
Context {SV : SemVer}.
Variable env : Env.

Lemma containers_pop_effects (p : event -> bool) (key : string) :
  preserves (extends_by p) (containers_pop key).
Proof.
  unfold containers_pop. apply preserves_bind.
  - apply extends_by_trans.
  - apply preserves_gets, extends_by_refl.
  - intros d. destruct (dict_pop key d).
    + apply preserves_modify. intros s. auto.
    + apply preserves_raise, extends_by_refl.
Qed.

Lemma remove_if_stopped_effects (container : ref) :
  preserves (extends_by is_reload) (remove_if_stopped env container).
Proof.
  pose proof (extends_by_refl is_reload) as Hrefl.
  pose proof (extends_by_trans is_reload) as Htrans.
  unfold remove_if_stopped. apply preserves_try; auto.
  - apply preserves_bind; auto.
    + unfold reload. apply preserves_bind; auto; [apply preserves_gets; auto|].
      intros cid. apply preserves_bind; auto; [apply preserves_call; reflexivity|].
      intros st. apply preserves_modify. intros s. auto.
    + intros _. apply preserves_bind; auto; [apply preserves_gets; auto|].
      intros st. destruct (negb (String.eqb st "running")).
      * apply preserves_bind; auto; [apply preserves_gets; auto|].
        intros cid. apply containers_pop_effects.
      * apply preserves_ret; auto.
  - apply Forall_cons; [|apply Forall_nil]. simpl. intros e.
    apply preserves_bind; auto; [apply preserves_gets; auto|].
    intros cid. apply containers_pop_effects.
  - intros a. apply preserves_ret; auto.
Qed.

(** Whatever the registry looks like, reconciliation only reloads
    containers and leaves the catalog alone. *)
Lemma remove_stopped_containers_effects :
  preserves (extends_by is_reload) (remove_stopped_containers env).
Proof.
  unfold remove_stopped_containers. apply preserves_bind.
  - apply extends_by_trans.
  - apply preserves_gets, extends_by_refl.
  - intros snapshot. apply preserves_for_each.
    + apply extends_by_refl.
    + apply extends_by_trans.
    + apply remove_if_stopped_effects.
Qed.

(** The handler, stage by stage: [s1] is the state reconciliation leaves
    and [s2] the state the refresh leaves. *)
Lemma request_game_run (game_request : GameRequest) (s : State) :
  request_game env game_request s =
    match version_parse (req_version game_request) with
    | None => (inl (invalid_version (latest_tags s)), s)
    | Some version =>
        match remove_stopped_containers env s with
        | (inl e, s1) => (inl e, s1)
        | (inr _, s1) =>
            if Z.of_nat (length (containers s1)) >=? MAX_RUNNING_SERVERS
            then (inl capacity_exceeded, s1)
            else
              match min_supported_tag s1 with
              | None => (inl none_comparison, s1)
              | Some m =>
                  if version_lt version m then (inl (version_too_old (latest_tags s1)), s1)
                  else if version_in version (latest_tags s1)
                       then create_server env game_request s1
                       else
                         match get_latest_image_tags env DOCKER_USER DOCKER_REPO s1 with
                         | (inl e, s2) => (inl e, s2)
                         | (inr _, s2) =>
                             if version_in version (latest_tags s2)
                             then create_server env game_request s2
                             else (inl (unsupported_version (latest_tags s2)), s2)
                         end
              end
        end
    end.
Proof.
  unfold request_game.
  destruct (version_parse (req_version game_request)) as [version|]; [|reflexivity].
  unfold bind at 1.
  destruct (remove_stopped_containers env s) as [[e|[]] s1]; [reflexivity|].
  unfold bind at 1. unfold gets at 1.
  destruct (Z.of_nat (length (containers s1)) >=? MAX_RUNNING_SERVERS); [reflexivity|].
  unfold bind at 1. unfold gets at 1. unfold bind at 1. unfold version_less.
  destruct (min_supported_tag s1) as [m|]; [|reflexivity].
  unfold ret at 1.
  destruct (version_lt version m); [reflexivity|].
  unfold bind at 1. unfold gets at 1. unfold bind at 1.
  destruct (version_in version (latest_tags s1)); simpl; [reflexivity|].
  unfold bind at 1.
  destruct (get_latest_image_tags env DOCKER_USER DOCKER_REPO s1) as [[e|[]] s2];
    [reflexivity|].
  unfold bind at 1. unfold gets at 1.
  destruct (version_in version (latest_tags s2)); reflexivity.
Qed.

End Handler.

(** ** C1: the order of the stages *)

(** C1. A launch request goes through the stages in order.  A version
    string that does not parse is rejected with status 400 and nothing
    happens.  Otherwise the registry is reconciled (reloads only, the catalog
    is not touched) and a count at or above MAX_RUNNING_SERVERS is rejected
    with status 429 in the reconciled state.  Otherwise a version below the
    minimum is rejected with status 426, still in the reconciled state.
    Otherwise a supported version goes to [create_server] with no refresh,
    and an unsupported one triggers one refresh (one registry call, the
    fleet untouched), after which the version is either launched or
    rejected with status 400 in the refreshed state.  Over the whole
    request the calls made are reloads, then at most one registry call,
    then the calls of the launch. *)
Theorem request_game_stage_order
        {SV : SemVer} (env : Env) (game_request : GameRequest) (s : State) :
  (version_parse (req_version game_request) = None ->
   request_game env game_request s = (inl (invalid_version (latest_tags s)), s))
  /\
  (forall version s1,
      version_parse (req_version game_request) = Some version ->
      remove_stopped_containers env s = (inr tt, s1) ->
      extends_by is_reload s s1 /\
      (Z.of_nat (length (containers s1)) >= MAX_RUNNING_SERVERS ->
       request_game env game_request s = (inl capacity_exceeded, s1)) /\
      (Z.of_nat (length (containers s1)) < MAX_RUNNING_SERVERS ->
       forall m, min_supported_tag s1 = Some m ->
         (version_lt version m = true ->
          request_game env game_request s = (inl (version_too_old (latest_tags s1)), s1)) /\
         (version_lt version m = false ->
          (version_in version (latest_tags s1) = true ->
           request_game env game_request s = create_server env game_request s1) /\
          (version_in version (latest_tags s1) = false ->
           forall s2,
             get_latest_image_tags env DOCKER_USER DOCKER_REPO s1 = (inr tt, s2) ->
             history s2 = history s1 ++ [refresh_event] /\
             containers s2 = containers s1 /\
             (version_in version (latest_tags s2) = false ->
              request_game env game_request s
              = (inl (unsupported_version (latest_tags s2)), s2)) /\
             (version_in version (latest_tags s2) = true ->
              request_game env game_request s = create_server env game_request s2)))))
  /\
  (forall r s',
      request_game env game_request s = (r, s') ->
      exists reloads gets launches,
        history s' = history s ++ reloads ++ gets ++ launches /\
        forallb is_reload reloads = true /\
        (gets = [] \/ gets = [refresh_event]) /\
        forallb is_launch launches = true).
Proof.
  split; [|split].
  - intros Hparse. rewrite request_game_run, Hparse. reflexivity.
  - intros version s1 Hparse Hrec.
    split; [exact (remove_stopped_containers_effects env s _ s1 Hrec)|].
    rewrite request_game_run, Hparse, Hrec.
    split.
    + intros Hfull. apply Z.geb_ge in Hfull. rewrite Hfull. reflexivity.
    + intros Hroom m Hmin.
      assert (Hgeb : (Z.of_nat (length (containers s1)) >=? MAX_RUNNING_SERVERS) = false).
      { rewrite Z.geb_leb. apply Z.leb_gt. exact Hroom. }
      rewrite Hgeb, Hmin.
      split; [intros ->; reflexivity|]. intros ->.
      split; [intros ->; reflexivity|]. intros -> s2 Hrefresh.
      destruct (get_latest_image_tags_effects env _ _ _ _ _ Hrefresh) as (Hc & _ & Hh).
      rewrite Hrefresh.
      split; [exact Hh|]. split; [exact Hc|].
      split; intros ->; reflexivity.
  - intros r s'. rewrite request_game_run.
    assert (Hstop : forall reloads gets (t : State),
               history t = history s ++ reloads ++ gets ->
               forallb is_reload reloads = true ->
               (gets = [] \/ gets = [refresh_event]) ->
               exists reloads gets launches,
                 history t = history s ++ reloads ++ gets ++ launches /\
                 forallb is_reload reloads = true /\
                 (gets = [] \/ gets = [refresh_event]) /\
                 forallb is_launch launches = true).
    { intros reloads gets t Hh Hr Hg. exists reloads, gets, [].
      rewrite app_nil_r. auto. }
    assert (Hlaunch : forall reloads gets (t : State),
               history t = history s ++ reloads ++ gets ->
               forallb is_reload reloads = true ->
               (gets = [] \/ gets = [refresh_event]) ->
               create_server env game_request t = (r, s') ->
               exists reloads gets launches,
                 history s' = history s ++ reloads ++ gets ++ launches /\
                 forallb is_reload reloads = true /\
                 (gets = [] \/ gets = [refresh_event]) /\
                 forallb is_launch launches = true).
    { intros reloads gets t Hh Hr Hg Hcs.
      destruct (create_server_effects env game_request t r s' Hcs)
        as (_ & _ & launches & Hh' & Hl).
      exists reloads, gets, launches. rewrite Hh', Hh, <- !app_assoc. auto. }
    destruct (version_parse (req_version game_request)) as [version|].
    2:{ intros E. inversion E; subst.
        apply (Hstop [] []); [simpl; rewrite app_nil_r; reflexivity | reflexivity | ].
        left; reflexivity. }
    destruct (remove_stopped_containers env s) as [r1 s1] eqn:Hrec.
    destruct (remove_stopped_containers_effects env s r1 s1 Hrec)
      as (_ & _ & reloads & Hh1 & Hr1).
    assert (Hh1' : history s1 = history s ++ reloads ++ []) by (rewrite app_nil_r; exact Hh1).
    destruct r1 as [e|[]].
    { intros E. inversion E; subst. apply (Hstop reloads []); auto. }
    destruct (Z.of_nat (length (containers s1)) >=? MAX_RUNNING_SERVERS).
    { intros E. inversion E; subst. apply (Hstop reloads []); auto. }
    destruct (min_supported_tag s1) as [m|].
    2:{ intros E. inversion E; subst. apply (Hstop reloads []); auto. }
    destruct (version_lt version m).
    { intros E. inversion E; subst. apply (Hstop reloads []); auto. }
    destruct (version_in version (latest_tags s1)).
    { apply (Hlaunch reloads []); auto. }
    destruct (get_latest_image_tags env DOCKER_USER DOCKER_REPO s1) as [r2 s2] eqn:Hrefresh.
    destruct (get_latest_image_tags_effects env _ _ _ _ _ Hrefresh) as (_ & _ & Hh2).
    assert (Hh2' : history s2 = history s ++ reloads ++ [refresh_event]).
    { rewrite Hh2, Hh1, <- app_assoc. reflexivity. }
    destruct r2 as [e|[]].
    { intros E. inversion E; subst. apply (Hstop reloads [refresh_event]); auto. }
    destruct (version_in version (latest_tags s2)).
    { apply (Hlaunch reloads [refresh_event]); auto. }
    intros E. inversion E; subst. apply (Hstop reloads [refresh_event]); auto.
Qed.

Lemma request_game_stage_order_witness :
  request_game hub_ok_env request_090 primed_state
  = (inl (HTTPException 426
            "Your game version is out of date! Supported versions: 1.2.0, 1.0.0"),
     primed_state).
Proof.
  destruct (request_game_stage_order hub_ok_env request_090 primed_state) as (_ & Hstages & _).
  destruct (Hstages v090 primed_state eq_refl eq_refl) as (_ & _ & Hroom).
  destruct (Hroom ltac:(vm_compute; reflexivity) v100 eq_refl) as (Hold & _).
  exact (Hold eq_refl).
Defined.

(** A supported version is launched without a refresh: the provisioning
    pulls, one port allocation, one run request, and the container is
    registered. *)
Example request_game_supported_version :
  request_game hub_ok_env request_120 primed_state
  = (inr 40000,
     {| containers := [("c0", O)];
        latest_tags := [v120; v100]; min_supported_tag := Some v100;
        heap := [{| container_id := "c0"; container_status := "created" |}];
        history := [EvPull IMAGE_NAME "1.2.0"; EvPull IMAGE_NAME "1.0.0";
                    EvBindPort; EvRun (run_spec request_120 40000)] |}).
Proof. reflexivity. Qed.

(** A version published after the last refresh is picked up by the one
    refresh of the request. *)
Example request_game_just_published_version :
  fst (request_game hub_ok_env request_120 stale_state) = inr 40000 /\
  history (snd (request_game hub_ok_env request_120 stale_state))
  = [refresh_event; EvPull IMAGE_NAME "1.2.0"; EvPull IMAGE_NAME "1.0.0";
     EvBindPort; EvRun (run_spec request_120 40000)].
Proof. split; reflexivity. Qed.

(** The run request of [request_120] on port 40000. *)
Example run_spec_request_120 :
  run_spec request_120 40000
  = {| run_image := "stuxgames/flappierace:1.2.0";
       run_command := ["--name"; "lobby"; "--port"; "40000"; "--list"];
       run_tty := true;
       run_ports := [("40000/udp", ("0.0.0.0", 40000)); ("40000/tcp", ("0.0.0.0", 40000))];
       run_volumes := ["flappieracebackend_nginx_secrets:/secrets:ro"];
       run_detach := true |}.
Proof. reflexivity. Qed.

(** ** C3: a request before the catalog was ever populated *)

(** C3 (what the code does). With no minimum in the catalog, a request
    whose version parses and that passes the capacity check is not
    rejected by the version gate: the comparison [version < None] raises
    [TypeError], which is not an [HTTPException], and the handler ends with
    that exception in the reconciled state.  No container is launched. *)
Theorem request_game_unset_minimum_type_error
        {SV : SemVer} (env : Env) (game_request : GameRequest) (s s1 : State)
        (version : Version) :
  min_supported_tag s = None ->
  version_parse (req_version game_request) = Some version ->
  remove_stopped_containers env s = (inr tt, s1) ->
  Z.of_nat (length (containers s1)) < MAX_RUNNING_SERVERS ->
  request_game env game_request s = (inl none_comparison, s1) /\
  isinstance none_comparison StarletteHTTPException = false /\
  count_events is_run (history s1) = count_events is_run (history s).
Proof.
  intros Hmin Hparse Hrec Hroom.
  destruct (remove_stopped_containers_effects env s _ s1 Hrec)
    as (_ & Hmin1 & reloads & Hh1 & Hr1).
  split; [|split; [reflexivity|]].
  - rewrite request_game_run, Hparse, Hrec.
    replace (Z.of_nat (length (containers s1)) >=? MAX_RUNNING_SERVERS) with false
      by (symmetry; rewrite Z.geb_leb; apply Z.leb_gt; exact Hroom).
    rewrite Hmin1, Hmin. reflexivity.
  - rewrite Hh1, count_events_app.
    assert (Hnone : count_events is_run reloads = O).
    { clear Hh1. unfold count_events. induction reloads as [|ev evs IH]; [reflexivity|].
      simpl in Hr1. apply andb_true_iff in Hr1. destruct Hr1 as [Hev Hevs].
      destruct ev; try discriminate. simpl. apply IH. exact Hevs. }
    lia.
Qed.

Lemma request_game_unset_minimum_type_error_witness :
  request_game hub_ok_env request_120 initial_state
  = (inl (Raised TypeError
            "'<' not supported between instances of 'Version' and 'NoneType'"),
     initial_state).
Proof.
  exact (proj1 (request_game_unset_minimum_type_error
                  hub_ok_env request_120 initial_state initial_state v120
                  eq_refl eq_refl eq_refl ltac:(vm_compute; reflexivity))).
Defined.

(** The situation arises when Docker Hub answers the startup refresh with
    a status other than 200: startup completes with an empty catalog, and
    the first request ends in the [TypeError]. *)
Example request_after_failed_startup_refresh :
  let started_up := snd (lifespan_startup hub_unavailable_env initial_state) in
  fst (lifespan_startup hub_unavailable_env initial_state) = inr tt /\
  min_supported_tag started_up = None /\
  fst (request_game hub_unavailable_env request_120 started_up) = inl none_comparison.
Proof. cbv zeta. repeat split; reflexivity. Qed.

(** C5, as stated, fails: on a runtime that cannot pull 1.2.0 but would
    start every container, a request for the supported version 1.2.0 fails
    with the exception of the provisioning pull, and not a single creation
    attempt is made. *)
Lemma request_game_fails_on_provisioning_pull_failure :
  (forall h spec, exists c, containers_run pull_fails_env h spec = inr c) /\
  request_game pull_fails_env request_120 primed_state
  = (inl (Raised APIError "500 Server Error: toomanyrequests"),
     record_event (EvPull "stuxgames/flappierace" "1.2.0") primed_state) /\
  count_events is_run
    (history (snd (request_game pull_fails_env request_120 primed_state))) = O.
Proof.
  split; [|split; reflexivity].
  intros h spec. eexists. reflexivity.
Qed.

(** ** C9: startup *)





(** ** The registry invariant holds in every state the program reaches *)

Section Reachable.
Context {SV : SemVer}.
Variable env : Env.

Lemma initial_state_wf : registry_wf initial_state.
Proof. split; [constructor | intros k c []]. Qed.

Lemma registry_wf_same_fleet (s s' : State) :
  containers s' = containers s -> heap s' = heap s ->
  registry_wf s -> registry_wf s'.
Proof.
  intros Hc Hp [Hnd Hent]. unfold registry_wf, deref. rewrite Hc, Hp. split; assumption.
Qed.

Lemma dict_set_entries {V} (k : string) (v : V) (d : dict V) (x : string) (y : V) :
  In (x, y) (dict_set k v d) -> (x, y) = (k, v) \/ In (x, y) d.
Proof.
  induction d as [|[k' v'] d IH]; simpl.
  - intros [H|[]]. left. symmetry. exact H.
  - destruct (String.eqb k' k).
    + intros [H|H]; [left; symmetry; exact H | right; right; exact H].
    + intros [H|H]; [right; left; exact H|].
      destruct (IH H) as [H'|H']; [left; exact H' | right; right; exact H'].
Qed.

Lemma dict_set_keys {V} (k : string) (v : V) (d : dict V) (x : string) :
  In x (dict_keys (dict_set k v d)) -> x = k \/ In x (dict_keys d).
Proof.
  unfold dict_keys. intros H. apply in_map_iff in H. destruct H as ([x' y] & Hx & Hin).
  simpl in Hx. subst x'. apply dict_set_entries in Hin. destruct Hin as [Hin|Hin].
  - left. congruence.
  - right. apply in_map_iff. exists (x, y). auto.
Qed.

Lemma dict_set_NoDup {V} (k : string) (v : V) (d : dict V) :
  NoDup (dict_keys d) -> NoDup (dict_keys (dict_set k v d)).
Proof.
  induction d as [|[k' v'] d IH]; simpl; intros Hnd.
  - constructor; [intros []|constructor].
  - inversion Hnd as [|? ? Hk' Hnd']; subst.
    destruct (String.eqb k' k) eqn:E; simpl.
    + apply String.eqb_eq in E. subst k'. constructor; assumption.
    + constructor; [|apply IH; exact Hnd'].
      intros Hin. apply dict_set_keys in Hin. destruct Hin as [->|Hin]; [|tauto].
      rewrite String.eqb_refl in E. discriminate.
Qed.

(** Registering a freshly allocated container keeps the registry well
    formed. *)
Lemma started_wf (game_request : GameRequest) (port : Z) (c : Container) (s : State) :
  registry_wf s -> registry_wf (started game_request port c s).
Proof.
  intros [Hnd Hent]. split.
  - simpl. apply dict_set_NoDup. exact Hnd.
  - simpl. intros k r Hin. unfold deref. simpl. rewrite length_app. simpl.
    apply dict_set_entries in Hin. destruct Hin as [Hin|Hin].
    + inversion Hin; subst. split; [lia|]. rewrite nth_middle. reflexivity.
    + destruct (Hent k r Hin) as [Hlt Hid]. split; [lia|].
      rewrite app_nth1 by exact Hlt. exact Hid.
Qed.

Lemma create_attempt_wf (game_request : GameRequest) (attempt : nat) (s s' : State) r :
  registry_wf s ->
  create_attempt env game_request attempt s = (r, s') ->
  registry_wf s'.
Proof.
  intros Hwf.
  assert (Hhandled : forall (e : exn) (t : State),
             registry_wf t ->
             match select_handler e
                     [(fun err => isinstance err APIError,
                       fun _ : exn => ret (@None Z));
                      (fun err => isinstance err ImageNotFound,
                       fun _ : exn =>
                         bind (gets latest_tags)
                              (fun tags =>
                                 bind (check_images_pulled env IMAGE_NAME tags)
                                      (fun _ => ret (@None Z))))] with
             | Some h => h t
             | None => (inl e, t)
             end = (r, s') ->
             registry_wf s').
  { intros e t Hwft. simpl. destruct (isinstance e APIError).
    - intros E. inversion E; subst. exact Hwft.
    - destruct (isinstance e ImageNotFound).
      + unfold bind, gets.
        destruct (check_images_pulled env IMAGE_NAME (latest_tags t) t) as [[e'|[]] t'] eqn:Ep.
        * intros E. inversion E; subst.
          apply check_images_pulled_raises in Ep.
          destruct Ep as (? & ? & ? & _ & _ & _ & Hc & Hp & _).
          exact (registry_wf_same_fleet _ _ Hc Hp Hwft).
        * intros E. inversion E; subst.
          apply check_images_pulled_returns in Ep. destruct Ep as (_ & Hc & Hp & _).
          exact (registry_wf_same_fleet _ _ Hc Hp Hwft).
      + intros E. inversion E; subst. exact Hwft. }
  unfold create_attempt, try_except_else, find_free_port, bind, call.
  destruct (bind_port env (history s)) as [e|port].
  - apply Hhandled. exact (registry_wf_same_fleet s _ eq_refl eq_refl Hwf).
  - simpl.
    destruct (containers_run env (history s ++ [EvBindPort]) (run_spec game_request port))
      as [e|c].
    + apply Hhandled. exact (registry_wf_same_fleet s _ eq_refl eq_refl Hwf).
    + simpl. intros E. inversion E; subst.
      unfold deref. simpl. rewrite nth_middle.
      exact (started_wf game_request port c s Hwf).
Qed.

Lemma create_server_wf (game_request : GameRequest) (s s' : State) r :
  registry_wf s ->
  create_server env game_request s = (r, s') ->
  registry_wf s'.
Proof.
  intros Hwf. unfold create_server, bind, gets.
  destruct (check_images_pulled env IMAGE_NAME (latest_tags s) s) as [[e|[]] s0] eqn:Ep.
  - intros E. inversion E; subst.
    apply check_images_pulled_raises in Ep.
    destruct Ep as (? & ? & ? & _ & _ & _ & Hc & Hp & _).
    exact (registry_wf_same_fleet _ _ Hc Hp Hwf).
  - apply check_images_pulled_returns in Ep. destruct Ep as (_ & Hc & Hp & _).
    pose proof (registry_wf_same_fleet _ _ Hc Hp Hwf) as Hwf0. clear Hc Hp Hwf.
    revert s0 Hwf0.
    induction (seq 0 (Z.to_nat MAX_CONTAINER_RETRIES)) as [|attempt attempts IH];
      intros s0 Hwf0; simpl.
    + intros E. inversion E; subst. exact Hwf0.
    + unfold bind.
      destruct (create_attempt env game_request attempt s0) as [[e|[port|]] s1] eqn:Ea;
        pose proof (create_attempt_wf _ _ _ _ _ Hwf0 Ea) as Hwf1.
      * intros E. inversion E; subst. exact Hwf1.
      * intros E. inversion E; subst. exact Hwf1.
      * apply IH. exact Hwf1.
Qed.

(** The handler keeps the registry well formed, whatever its outcome. *)
Lemma request_game_wf (game_request : GameRequest) (s s' : State) r :
  registry_wf s ->
  request_game env game_request s = (r, s') ->
  registry_wf s'.
Proof.
  intros Hwf. rewrite request_game_run.
  destruct (version_parse (req_version game_request)) as [version|].
  2:{ intros E. inversion E; subst. exact Hwf. }
  destruct (reconcile_loop env (containers s) [] s eq_refl Hwf)
    as (s1 & Hrec & _ & _ & _ & _ & Hwf1).
  change (for_each (dict_values (containers s)) (remove_if_stopped env) s)
    with (remove_stopped_containers env s) in Hrec.
  rewrite Hrec.
  destruct (Z.of_nat (length (containers s1)) >=? MAX_RUNNING_SERVERS).
  { intros E. inversion E; subst. exact Hwf1. }
  destruct (min_supported_tag s1) as [m|].
  2:{ intros E. inversion E; subst. exact Hwf1. }
  destruct (version_lt version m).
  { intros E. inversion E; subst. exact Hwf1. }
  destruct (version_in version (latest_tags s1)).
  { apply create_server_wf. exact Hwf1. }
  destruct (get_latest_image_tags env DOCKER_USER DOCKER_REPO s1) as [r2 s2] eqn:Hrefresh.
  destruct (get_latest_image_tags_effects env _ _ _ _ _ Hrefresh) as (Hc & Hp & _).
  pose proof (registry_wf_same_fleet _ _ Hc Hp Hwf1) as Hwf2.
  destruct r2 as [e|[]].
  { intros E. inversion E; subst. exact Hwf2. }
  destruct (version_in version (latest_tags s2)).
  { apply create_server_wf. exact Hwf2. }
  intros E. inversion E; subst. exact Hwf2.
Qed.

(** So does startup. *)
Lemma lifespan_startup_wf (s s' : State) r :
  registry_wf s ->
  lifespan_startup env s = (r, s') ->
  registry_wf s'.
Proof.
  intros Hwf. unfold lifespan_startup, bind, gets.
  destruct (get_latest_image_tags env DOCKER_USER DOCKER_REPO s) as [r1 s1] eqn:Hrefresh.
  destruct (get_latest_image_tags_effects env _ _ _ _ _ Hrefresh) as (Hc & Hp & _).
  pose proof (registry_wf_same_fleet _ _ Hc Hp Hwf) as Hwf1.
  destruct r1 as [e|[]].
  { intros E. inversion E; subst. exact Hwf1. }
  destruct r as [e|[]]; intros Ep.
  - apply check_images_pulled_raises in Ep.
    destruct Ep as (? & ? & ? & _ & _ & _ & Hc' & Hp' & _).
    exact (registry_wf_same_fleet _ _ Hc' Hp' Hwf1).
  - apply check_images_pulled_returns in Ep. destruct Ep as (_ & Hc' & Hp' & _).
    exact (registry_wf_same_fleet _ _ Hc' Hp' Hwf1).
Qed.

End Reachable.

(** * Further properties of the code *)

(** ** The creation loop on an arbitrary runtime *)

Section CreationOutcomes.
Context {SV : SemVer}.
Variable env : Env.
Variable game_request : GameRequest.

(** The three ways an attempt can go: the port allocation raised, the run
    request raised, or the container started.  An exception is swallowed
    exactly when it is an [APIError]; the image-missing clause never
    fires. *)
Lemma create_attempt_cases (attempt : nat) (s s' : State) r :
  create_attempt env game_request attempt s = (r, s') ->
  (exists e,
      bind_port env (history s) = inl e /\
      s' = record_event EvBindPort s /\
      r = if isinstance e APIError then inr None else inl e)
  \/
  (exists port e,
      bind_port env (history s) = inr port /\
      containers_run env (history s ++ [EvBindPort]) (run_spec game_request port) = inl e /\
      s' = record_event (EvRun (run_spec game_request port)) (record_event EvBindPort s) /\
      r = if isinstance e APIError then inr None else inl e)
  \/
  (exists port c,
      bind_port env (history s) = inr port /\
      containers_run env (history s ++ [EvBindPort]) (run_spec game_request port) = inr c /\
      s' = started game_request port c s /\
      r = inr (Some port)).
Proof.
  assert (Hsel : forall (e : exn) (t : State),
             match select_handler e
                     [(fun err => isinstance err APIError,
                       fun _ : exn => ret (@None Z));
                      (fun err => isinstance err ImageNotFound,
                       fun _ : exn =>
                         bind (gets latest_tags)
                              (fun tags =>
                                 bind (check_images_pulled env IMAGE_NAME tags)
                                      (fun _ => ret (@None Z))))] with
             | Some h => h t
             | None => (inl e, t)
             end = (if isinstance e APIError then inr None else inl e, t)).
  { intros e t. simpl. destruct (isinstance e APIError) eqn:Eapi; [reflexivity|].
    destruct (isinstance e ImageNotFound) eqn:Einf; [|reflexivity].
    apply isinstance_ImageNotFound_APIError in Einf. congruence. }
  unfold create_attempt, try_except_else.
  match goal with
  | |- context [match ?body s with _ => _ end] =>
      destruct (body s) as [[e|[port container]] s1] eqn:Ebody
  end.
  - rewrite Hsel. intros E. inversion E; subst.
    unfold find_free_port, bind, call in Ebody.
    destruct (bind_port env (history s)) as [e'|port] eqn:Eport.
    + inversion Ebody; subst. left. exists e. auto.
    + simpl in Ebody.
      destruct (containers_run env (history s ++ [EvBindPort]) (run_spec game_request port))
        as [e'|c] eqn:Erun; simpl in Ebody; [|discriminate].
      inversion Ebody; subst. right. left. exists port, e. auto.
  - unfold find_free_port, bind, call in Ebody.
    destruct (bind_port env (history s)) as [e'|port'] eqn:Eport; [discriminate|].
    simpl in Ebody.
    destruct (containers_run env (history s ++ [EvBindPort]) (run_spec game_request port'))
      as [e'|c] eqn:Erun; simpl in Ebody; [discriminate|].
    inversion Ebody; subst. clear Ebody.
    unfold bind, gets, modify, ret. simpl.
    intros E. inversion E; subst. right. right. exists port, c.
    unfold started, deref. simpl. rewrite nth_middle. auto.
Qed.

Lemma count_record_event (p : event -> bool) (ev : event) (s : State) :
  count_events p (history (record_event ev s))
  = (count_events p (history s) + if p ev then 1 else 0)%nat.
Proof.
  simpl. rewrite count_events_app. unfold count_events. simpl.
  destruct (p ev); reflexivity.
Qed.

Lemma count_started (p : event -> bool) (port : Z) (c : Container) (s : State) :
  count_events p (history (started game_request port c s))
  = (count_events p (history s) + (if p EvBindPort then 1 else 0)
     + if p (EvRun (run_spec game_request port)) then 1 else 0)%nat.
Proof.
  change (history (started game_request port c s))
    with (history (record_event (EvRun (run_spec game_request port))
                                (record_event EvBindPort s))).
  rewrite !count_record_event. reflexivity.
Qed.

(** What any run of the loop over [attempts] does: at most one port
    allocation and one run request per attempt, no pull, the catalog
    untouched; a returned port is the port of a last, accepted attempt,
    and a raised exception leaves the fleet as it was. *)
Lemma create_loop_outcome (attempts : list nat) (s s' : State) r :
  create_loop env game_request attempts s = (r, s') ->
  latest_tags s' = latest_tags s /\
  min_supported_tag s' = min_supported_tag s /\
  (count_events is_bind (history s')
   <= count_events is_bind (history s) + length attempts)%nat /\
  (count_events is_run (history s')
   <= count_events is_run (history s) + length attempts)%nat /\
  count_events is_pull (history s') = count_events is_pull (history s) /\
  match r with
  | inr port =>
      exists s1 c,
        bind_port env (history s1) = inr port /\
        containers_run env (history s1 ++ [EvBindPort]) (run_spec game_request port) = inr c /\
        s' = started game_request port c s1 /\
        containers s1 = containers s /\ heap s1 = heap s
  | inl e => containers s' = containers s /\ heap s' = heap s
  end.
Proof.
  revert s. induction attempts as [|attempt attempts IH]; intros s; simpl.
  - intros E. inversion E; subst. repeat split; lia.
  - unfold bind.
    destruct (create_attempt env game_request attempt s) as [r1 s1] eqn:Ea.
    apply create_attempt_cases in Ea.
    destruct Ea as [(e & _ & -> & ->)
                   | [(port & e & _ & _ & -> & ->) | (port & c & Hp & Hr & -> & ->)]].
    + destruct (isinstance e APIError).
      * intros E. apply IH in E.
        rewrite !count_record_event in E. simpl in E.
        destruct E as (Ht & Hm & Hb & Hrn & Hpl & Hres).
        repeat split; auto; try lia.
      * intros E. inversion E; subst.
        rewrite !count_record_event. simpl.
        repeat split; auto; lia.
    + destruct (isinstance e APIError).
      * intros E. apply IH in E.
        rewrite !count_record_event in E. simpl in E.
        destruct E as (Ht & Hm & Hb & Hrn & Hpl & Hres).
        repeat split; auto; try lia.
      * intros E. inversion E; subst.
        rewrite !count_record_event. simpl.
        repeat split; auto; lia.
    + intros E. inversion E; subst.
      rewrite !count_started. simpl.
      split; [reflexivity|]. split; [reflexivity|].
      split; [lia|]. split; [lia|]. split; [lia|].
      exists s, c. auto.
Qed.

Lemma create_loop_effects (attempts : list nat) :
  preserves (extends_by is_launch) (create_loop env game_request attempts).
Proof.
  induction attempts as [|attempt attempts IH]; simpl.
  - apply preserves_raise, extends_by_refl.
  - apply preserves_bind; [apply extends_by_trans | apply create_attempt_effects |].
    intros [p|]; [apply preserves_ret, extends_by_refl | exact IH].
Qed.

End CreationOutcomes.

(** ** Launching: what a caller of [create_server] can rely on *)

(** X1. Whenever [create_server] returns a port, that port was allocated
    in a last attempt whose run request, made for that very port, the
    runtime accepted; the container it handed back is a new object,
    registered under its id, and the registry is otherwise as it was
    before the launch. *)
Theorem create_server_returns_launched_port
        {SV : SemVer} (env : Env) (game_request : GameRequest) (s s' : State) (port : Z) :
  create_server env game_request s = (inr port, s') ->
  exists s1 c,
    bind_port env (history s1) = inr port /\
    containers_run env (history s1 ++ [EvBindPort]) (run_spec game_request port) = inr c /\
    history s' = history s1 ++ [EvBindPort; EvRun (run_spec game_request port)] /\
    containers s' = dict_set (container_id c) (length (heap s)) (containers s) /\
    dict_get (container_id c) (containers s') = Some (length (heap s)) /\
    deref (length (heap s)) s' = c.
Proof.
  unfold create_server, bind, gets.
  destruct (check_images_pulled env IMAGE_NAME (latest_tags s) s) as [[e|[]] s0] eqn:Ep;
    [discriminate|].
  apply check_images_pulled_returns in Ep. destruct Ep as (_ & Hc0 & Hp0 & _).
  intros E. apply create_loop_outcome in E.
  destruct E as (_ & _ & _ & _ & _ & s1 & c & Hport & Hrun & -> & Hc1 & Hp1).
  exists s1, c. split; [exact Hport|]. split; [exact Hrun|].
  split; [simpl; rewrite <- app_assoc; reflexivity|].
  assert (Hc : containers (started game_request port c s1)
               = dict_set (container_id c) (length (heap s)) (containers s)).
  { simpl. rewrite Hp1, Hp0, Hc1, Hc0. reflexivity. }
  split; [exact Hc|]. split; [rewrite Hc; apply dict_get_dict_set|].
  unfold deref. simpl. rewrite <- Hp0, <- Hp1. apply nth_middle.
Qed.

Lemma create_server_returns_launched_port_witness :
  exists s1 c,
    bind_port flaky_env (history s1) = inr 40002 /\
    containers_run flaky_env (history s1 ++ [EvBindPort]) (run_spec request_120 40002)
    = inr c /\
    container_id c = "c2".
Proof.
  destruct (create_server_returns_launched_port
              flaky_env request_120 primed_state
              (snd (create_server flaky_env request_120 primed_state)) 40002 eq_refl)
    as (s1 & c & Hport & Hrun & _ & _ & _ & Hc).
  exists s1, c. split; [exact Hport|]. split; [exact Hrun|].
  rewrite <- Hc. reflexivity.
Defined.

(** X2. A launch that raises, for whatever reason, registers nothing: the
    registry, the container objects and the catalog are as they were. *)
Theorem create_server_failure_registers_nothing
        {SV : SemVer} (env : Env) (game_request : GameRequest) (s s' : State) (e : exn) :
  create_server env game_request s = (inl e, s') ->
  containers s' = containers s /\ heap s' = heap s /\
  latest_tags s' = latest_tags s /\ min_supported_tag s' = min_supported_tag s.
Proof.
  unfold create_server, bind, gets.
  destruct (check_images_pulled env IMAGE_NAME (latest_tags s) s) as [[e0|[]] s0] eqn:Ep.
  - intros E. inversion E; subst. apply check_images_pulled_raises in Ep.
    destruct Ep as (? & ? & ? & _ & _ & _ & Hc & Hp & Ht & Hm). auto.
  - apply check_images_pulled_returns in Ep. destruct Ep as (_ & Hc0 & Hp0 & Ht0 & Hm0).
    intros E. apply create_loop_outcome in E.
    destruct E as (Ht & Hm & _ & _ & _ & Hc & Hp).
    repeat split; congruence.
Qed.

Lemma create_server_failure_registers_nothing_witness :
  containers (snd (create_server refusing_env request_120 fleet_state))
  = [("a", 0%nat); ("b", 1%nat); ("c", 2%nat)].
Proof.
  exact (proj1 (create_server_failure_registers_nothing
                  refusing_env request_120 fleet_state
                  (snd (create_server refusing_env request_120 fleet_state))
                  launch_failed eq_refl)).
Defined.

(** X3. Whatever the runtime answers, one launch makes at most
    MAX_CONTAINER_RETRIES port allocations and at most
    MAX_CONTAINER_RETRIES run requests, and never a registry call or a
    reload. *)
Theorem create_server_attempts_bounded
        {SV : SemVer} (env : Env) (game_request : GameRequest) (s s' : State) r :
  create_server env game_request s = (r, s') ->
  (Z.of_nat (count_events is_bind (history s'))
   <= Z.of_nat (count_events is_bind (history s)) + MAX_CONTAINER_RETRIES) /\
  (Z.of_nat (count_events is_run (history s'))
   <= Z.of_nat (count_events is_run (history s)) + MAX_CONTAINER_RETRIES) /\
  count_events is_get (history s') = count_events is_get (history s) /\
  count_events is_reload (history s') = count_events is_reload (history s).
Proof.
  intros Hrun.
  assert (Hothers : count_events is_get (history s') = count_events is_get (history s) /\
                    count_events is_reload (history s') = count_events is_reload (history s)).
  { destruct (create_server_effects env game_request s r s' Hrun) as (_ & _ & evs & Hh & Hl).
    rewrite Hh, !count_events_app.
    assert (Hz : forall p, (forall ev, is_launch ev = true -> p ev = false) ->
                           count_events p evs = O).
    { intros p Hp. clear Hh. unfold count_events.
      induction evs as [|ev evs IH]; [reflexivity|].
      simpl in Hl. apply andb_true_iff in Hl. destruct Hl as [Hev Hevs].
      simpl. rewrite (Hp ev Hev). apply IH. exact Hevs. }
    rewrite !Hz; [lia| |]; intros [] Hev; try reflexivity; discriminate. }
  revert Hrun. unfold create_server, bind, gets.
  destruct (check_images_pulled env IMAGE_NAME (latest_tags s) s) as [[e0|[]] s0] eqn:Ep.
  - intros E. inversion E; subst. apply check_images_pulled_raises in Ep.
    destruct Ep as (done & tag & rest & _ & _ & Hh & _).
    split; [|split; [|exact Hothers]];
      rewrite Hh, !count_events_app, !count_events_pulls by reflexivity;
      unfold MAX_CONTAINER_RETRIES; lia.
  - apply check_images_pulled_returns in Ep. destruct Ep as (Hh0 & _).
    intros E. apply create_loop_outcome in E.
    destruct E as (_ & _ & Hb & Hr & _).
    rewrite length_seq in Hb, Hr.
    rewrite Hh0, !count_events_app, !count_events_pulls in Hb, Hr by reflexivity.
    unfold MAX_CONTAINER_RETRIES in *. split; [lia|]. split; [lia|]. exact Hothers.
Qed.

Lemma create_server_attempts_bounded_witness :
  Z.of_nat (count_events is_run
              (history (snd (create_server refusing_env request_120 primed_state))))
  <= 0 + 10.
Proof.
  exact (proj1 (proj2 (create_server_attempts_bounded
                         refusing_env request_120 primed_state
                         (snd (create_server refusing_env request_120 primed_state))
                         (fst (create_server refusing_env request_120 primed_state))
                         eq_refl))).
Defined.

(** X4. Every launch asks the runtime to pull every version of the catalog,
    not only the requested one, and pulls nothing afterwards: a launch that
    returns a port has made exactly as many pull requests as the catalog
    has versions, and no launch ever makes more. *)
Theorem create_server_pulls_whole_catalog
        {SV : SemVer} (env : Env) (game_request : GameRequest) (s s' : State) r :
  create_server env game_request s = (r, s') ->
  (count_events is_pull (history s')
   <= count_events is_pull (history s) + length (latest_tags s))%nat /\
  (forall port, r = inr port ->
     count_events is_pull (history s')
     = (count_events is_pull (history s) + length (latest_tags s))%nat /\
     exists attempts,
       history s' = history s ++ map (pull_event IMAGE_NAME) (latest_tags s) ++ attempts /\
       count_events is_pull attempts = O).
Proof.
  unfold create_server, bind, gets.
  destruct (check_images_pulled env IMAGE_NAME (latest_tags s) s) as [[e0|[]] s0] eqn:Ep.
  - intros E. inversion E; subst. apply check_images_pulled_raises in Ep.
    destruct Ep as (done & tag & rest & Htags & _ & Hh & _).
    split; [|discriminate].
    rewrite Hh, count_events_app, count_pull_events, Htags, !length_app. simpl. lia.
  - apply check_images_pulled_returns in Ep. destruct Ep as (Hh0 & _).
    intros E.
    pose proof (create_loop_outcome env game_request _ _ _ _ E) as (_ & _ & _ & _ & Hpl & _).
    assert (Hcount : count_events is_pull (history s')
                     = (count_events is_pull (history s) + length (latest_tags s))%nat).
    { rewrite Hpl, Hh0, count_events_app, count_pull_events. reflexivity. }
    split; [lia|]. intros port ->. split; [exact Hcount|].
    destruct (create_loop_effects env game_request _ _ _ _ E)
      as (_ & _ & attempts & Hh & _).
    exists attempts. split; [rewrite Hh, Hh0, <- app_assoc; reflexivity|].
    rewrite Hh, count_events_app in Hpl. lia.
Qed.

Lemma create_server_pulls_whole_catalog_witness :
  count_events is_pull (history (snd (create_server hub_ok_env request_120 primed_state)))
  = 2%nat.
Proof.
  exact (proj1 (proj2 (create_server_pulls_whole_catalog
                         hub_ok_env request_120 primed_state
                         (snd (create_server hub_ok_env request_120 primed_state))
                         (inr 40000)
                         eq_refl) 40000 eq_refl)).
Defined.

(** X5. Only an [APIError] is retried.  When the run request of the first
    attempt raises an exception of any other class (the daemon cannot be
    reached, say), the launch ends at once with that exception, after a
    single port allocation and a single run request. *)
Theorem create_server_other_error_not_retried
        {SV : SemVer} (env : Env) (game_request : GameRequest) (s s0 : State)
        (port : Z) (e : exn) :
  check_images_pulled env IMAGE_NAME (latest_tags s) s = (inr tt, s0) ->
  bind_port env (history s0) = inr port ->
  containers_run env (history s0 ++ [EvBindPort]) (run_spec game_request port) = inl e ->
  isinstance e APIError = false ->
  create_server env game_request s
  = (inl e, record_event (EvRun (run_spec game_request port)) (record_event EvBindPort s0)).
Proof.
  intros Hpull Hport Hrun Hinst.
  rewrite (create_server_run env game_request s s0 Hpull).
  change (Z.to_nat MAX_CONTAINER_RETRIES) with 10%nat. simpl seq.
  cbn [create_loop]. unfold bind at 1.
  destruct (create_attempt env game_request 0 s0) as [r1 s1] eqn:Ea.
  apply create_attempt_cases in Ea.
  destruct Ea as [(e' & He' & _) | [(port' & e' & Hp' & Hr' & -> & ->) | (port' & c & Hp' & Hr' & _)]].
  - congruence.
  - assert (port' = port) by congruence. subst port'.
    assert (e' = e) by congruence. subst e'.
    rewrite Hinst. reflexivity.
  - assert (port' = port) by congruence. subst port'. congruence.
Qed.

Lemma create_server_other_error_not_retried_witness :
  create_server daemon_down_env request_120 primed_state
  = (inl (Raised ConnectionError "Error while fetching server API version"),
     {| containers := []; latest_tags := [v120; v100]; min_supported_tag := Some v100;
        heap := [];
        history := [EvPull IMAGE_NAME "1.2.0"; EvPull IMAGE_NAME "1.0.0";
                    EvBindPort; EvRun (run_spec request_120 40000)] |}).
Proof.
  exact (create_server_other_error_not_retried
           daemon_down_env request_120 primed_state
           (snd (check_images_pulled daemon_down_env IMAGE_NAME (latest_tags primed_state)
                                     primed_state))
           40000 (Raised ConnectionError "Error while fetching server API version")
           eq_refl eq_refl eq_refl eq_refl).
Defined.

(** ** The handler: what a caller of [request_game] can rely on *)

Section HandlerOutcomes.
Context {SV : SemVer}.
Variable env : Env.

Lemma dict_pop_length {V} (k : string) (d d' : dict V) :
  dict_pop k d = Some d' -> S (length d') = length d.
Proof.
  revert d'. induction d as [|[k' v] d IH]; simpl; intros d' H; [discriminate|].
  destruct (String.eqb k' k).
  - inversion H; subst. reflexivity.
  - destruct (dict_pop k d) as [r|]; [|discriminate].
    inversion H; subst. simpl. rewrite (IH r eq_refl). reflexivity.
Qed.

Lemma dict_set_length {V} (k : string) (v : V) (d : dict V) :
  (length (dict_set k v d) <= S (length d))%nat.
Proof.
  induction d as [|[k' v'] d IH]; simpl; [lia|].
  destruct (String.eqb k' k); simpl; lia.
Qed.

(** Reconciliation never adds an entry to the registry, well formed or
    not, whether it returns or raises. *)
Lemma remove_stopped_containers_shrinks :
  preserves (fun s s' => (length (containers s') <= length (containers s))%nat)
            (remove_stopped_containers env).
Proof.
  set (R := fun s s' : State => (length (containers s') <= length (containers s))%nat).
  assert (Hrefl : forall s, R s s) by (intros s; unfold R; lia).
  assert (Htrans : forall s1 s2 s3, R s1 s2 -> R s2 s3 -> R s1 s3)
    by (unfold R; intros; lia).
  assert (Hpop : forall key, preserves R (containers_pop key)).
  { intros key s r s'. unfold containers_pop, bind, gets, modify, raise.
    destruct (dict_pop key (containers s)) as [d'|] eqn:Ed; intros E; inversion E; subst.
    - unfold R. simpl. apply dict_pop_length in Ed. lia.
    - apply Hrefl. }
  assert (Hsame : forall A (m : M A),
             (forall s r s', m s = (r, s') -> containers s' = containers s) ->
             preserves R m).
  { intros A m Hm s r s' E. unfold R. rewrite (Hm s r s' E). lia. }
  unfold remove_stopped_containers. apply preserves_bind; auto.
  { apply preserves_gets; auto. }
  intros snapshot. apply preserves_for_each; auto.
  intros container. unfold remove_if_stopped. apply preserves_try; auto.
  - apply preserves_bind; auto.
    + apply Hsame. intros s r s'. unfold reload, bind, gets, call, set_status, modify.
      destruct (container_reload env (history s) (container_id (deref container s)));
        intros E; inversion E; subst; reflexivity.
    + intros _. apply preserves_bind; auto; [apply preserves_gets; auto|].
      intros st. destruct (negb (String.eqb st "running")).
      * apply preserves_bind; auto. apply preserves_gets; auto.
      * apply preserves_ret; auto.
  - apply Forall_cons; [|apply Forall_nil]. simpl. intros e.
    apply preserves_bind; auto. apply preserves_gets; auto.
  - intros a. apply preserves_ret; auto.
Qed.

(** The registry after a launch: one entry set on success, none touched on
    failure. *)
Lemma create_server_registry (game_request : GameRequest) (s s' : State) r :
  create_server env game_request s = (r, s') ->
  match r with
  | inr port =>
      (exists c, containers s'
                 = dict_set (container_id c) (length (heap s)) (containers s)) /\
      exists h, history s' = h ++ [EvBindPort; EvRun (run_spec game_request port)]
  | inl _ => containers s' = containers s
  end /\
  latest_tags s' = latest_tags s.
Proof.
  unfold create_server, bind, gets.
  destruct (check_images_pulled env IMAGE_NAME (latest_tags s) s) as [[e|[]] s0] eqn:Ep.
  - intros E. inversion E; subst. apply check_images_pulled_raises in Ep.
    destruct Ep as (? & ? & ? & _ & _ & _ & Hc & _ & Ht & _). auto.
  - apply check_images_pulled_returns in Ep. destruct Ep as (_ & Hc0 & Hp0 & Ht0 & _).
    intros E. apply create_loop_outcome in E.
    destruct E as (Ht & _ & _ & _ & _ & Hres).
    split; [|congruence].
    destruct r as [e|port].
    + destruct Hres as [Hc _]. congruence.
    + destruct Hres as (s1 & c & _ & _ & -> & Hc1 & Hp1). split.
      * exists c. simpl. rewrite Hp1, Hp0, Hc1, Hc0. reflexivity.
      * exists (history s1). simpl. rewrite <- app_assoc. reflexivity.
Qed.

End HandlerOutcomes.

(** X6. The handler keeps the fleet within capacity: a request that
    returns a port leaves at most MAX_RUNNING_SERVERS tracked containers, a
    request that raises leaves no more than there were; so a fleet within
    capacity stays within capacity, request after request. *)
Theorem request_game_keeps_capacity
        {SV : SemVer} (env : Env) (game_request : GameRequest) (s s' : State) r :
  request_game env game_request s = (r, s') ->
  match r with
  | inr _ => Z.of_nat (length (containers s')) <= MAX_RUNNING_SERVERS
  | inl _ => (length (containers s') <= length (containers s))%nat
  end /\
  (Z.of_nat (length (containers s)) <= MAX_RUNNING_SERVERS ->
   Z.of_nat (length (containers s')) <= MAX_RUNNING_SERVERS).
Proof.
  intros Hrun.
  assert (Hmain : match r with
                  | inr _ => Z.of_nat (length (containers s')) <= MAX_RUNNING_SERVERS
                  | inl _ => (length (containers s') <= length (containers s))%nat
                  end).
  { revert Hrun. rewrite request_game_run.
    destruct (version_parse (req_version game_request)) as [version|].
    2:{ intros E. inversion E; subst. lia. }
    destruct (remove_stopped_containers env s) as [r1 s1] eqn:Hrec.
    pose proof (remove_stopped_containers_shrinks env s r1 s1 Hrec) as Hle.
    simpl in Hle.
    destruct r1 as [e|[]].
    { intros E. inversion E; subst. exact Hle. }
    destruct (Z.of_nat (length (containers s1)) >=? MAX_RUNNING_SERVERS) eqn:Hcap.
    { intros E. inversion E; subst. exact Hle. }
    rewrite Z.geb_leb in Hcap. apply Z.leb_gt in Hcap.
    assert (Hlaunch : forall t,
               containers t = containers s1 ->
               create_server env game_request t = (r, s') ->
               match r with
               | inr _ => Z.of_nat (length (containers s')) <= MAX_RUNNING_SERVERS
               | inl _ => (length (containers s') <= length (containers s))%nat
               end).
    { intros t Ht E. apply create_server_registry in E. destruct E as [E _].
      destruct r as [e|port].
      - rewrite E, Ht. exact Hle.
      - destruct E as [(c & ->) _].
        pose proof (dict_set_length (container_id c) (length (heap t)) (containers t)).
        rewrite <- Ht in Hcap.
        eapply Z.le_trans; [apply Nat2Z.inj_le; exact H|].
        rewrite Nat2Z.inj_succ. apply Z.le_succ_l. exact Hcap. }
    destruct (min_supported_tag s1) as [m|].
    2:{ intros E. inversion E; subst. exact Hle. }
    destruct (version_lt version m).
    { intros E. inversion E; subst. exact Hle. }
    destruct (version_in version (latest_tags s1)).
    { apply Hlaunch. reflexivity. }
    destruct (get_latest_image_tags env DOCKER_USER DOCKER_REPO s1) as [r2 s2] eqn:Hrefresh.
    destruct (get_latest_image_tags_effects env _ _ _ _ _ Hrefresh) as (Hc2 & _).
    destruct r2 as [e|[]].
    { intros E. inversion E; subst. rewrite Hc2. exact Hle. }
    destruct (version_in version (latest_tags s2)).
    { apply Hlaunch. exact Hc2. }
    intros E. inversion E; subst. rewrite Hc2. exact Hle. }
  split; [exact Hmain|]. intros Hcap. destruct r; [lia | exact Hmain].
Qed.

Lemma request_game_keeps_capacity_witness :
  Z.of_nat (length (containers (snd (request_game hub_ok_env request_120 primed_state))))
  <= MAX_RUNNING_SERVERS.
Proof.
  exact (proj1 (request_game_keeps_capacity
                  hub_ok_env request_120 primed_state
                  (snd (request_game hub_ok_env request_120 primed_state))
                  (inr 40000) eq_refl)).
Defined.

(** A full fleet whose containers all run is turned away with status 429
    after twenty reloads. *)
Example request_game_full_fleet :
  fst (request_game hub_ok_env request_120 full_state) = inl capacity_exceeded /\
  count_events is_reload (history (snd (request_game hub_ok_env request_120 full_state)))
  = 20%nat /\
  count_events is_run (history (snd (request_game hub_ok_env request_120 full_state)))
  = 0%nat.
Proof. repeat split; vm_compute; reflexivity. Qed.

(** X7. The handler launches supported versions only: whenever it returns
    a port, the version string of the request parses, the version is in
    the catalog the handler leaves behind, and the last two calls made are
    the allocation of that port and the run request for it. *)
Theorem request_game_launches_supported_only
        {SV : SemVer} (env : Env) (game_request : GameRequest) (s s' : State) (port : Z) :
  request_game env game_request s = (inr port, s') ->
  exists version,
    version_parse (req_version game_request) = Some version /\
    version_in version (latest_tags s') = true /\
    exists h, history s' = h ++ [EvBindPort; EvRun (run_spec game_request port)].
Proof.
  rewrite request_game_run.
  destruct (version_parse (req_version game_request)) as [version|]; [|discriminate].
  destruct (remove_stopped_containers env s) as [[e|[]] s1]; [discriminate|].
  destruct (Z.of_nat (length (containers s1)) >=? MAX_RUNNING_SERVERS); [discriminate|].
  destruct (min_supported_tag s1) as [m|]; [|discriminate].
  destruct (version_lt version m); [discriminate|].
  assert (Hlaunch : forall t,
             version_in version (latest_tags t) = true ->
             create_server env game_request t = (inr port, s') ->
             exists version0,
               Some version = Some version0 /\
               version_in version0 (latest_tags s') = true /\
               exists h, history s' = h ++ [EvBindPort; EvRun (run_spec game_request port)]).
  { intros t Hin E. apply create_server_registry in E.
    destruct E as [[_ Hh] Ht]. exists version. rewrite Ht. auto. }
  destruct (version_in version (latest_tags s1)) eqn:Hin1.
  { apply Hlaunch. exact Hin1. }
  destruct (get_latest_image_tags env DOCKER_USER DOCKER_REPO s1) as [[e|[]] s2];
    [discriminate|].
  destruct (version_in version (latest_tags s2)) eqn:Hin2; [|discriminate].
  apply Hlaunch. exact Hin2.
Qed.

Lemma request_game_launches_supported_only_witness :
  exists version,
    version_parse "1.2.0" = Some version /\
    version_in version
      (latest_tags (snd (request_game hub_ok_env request_120 stale_state))) = true.
Proof.
  destruct (request_game_launches_supported_only
              hub_ok_env request_120 stale_state
              (snd (request_game hub_ok_env request_120 stale_state)) 40000 eq_refl)
    as (version & Hparse & Hin & _).
  exists version. split; [exact Hparse | exact Hin].
Defined.

(** ** Reconciliation, again *)

Section ReconciliationOutcomes.
Context {SV : SemVer}.
Variable env : Env.

(** On a runtime whose answer to a reload does not depend on the calls
    made before, reconciling is filtering. *)
Lemma reconciled_stable (h : list event) (d : dict ref) :
  (forall h1 h2 id, container_reload env h1 id = container_reload env h2 id) ->
  reconciled env h d
  = filter (fun kc => observed_running (container_reload env [] (fst kc))) d.
Proof.
  intros Hstable. revert h. induction d as [|[k c] d IH]; intros h; simpl; [reflexivity|].
  rewrite (Hstable h [] k), IH.
  destruct (observed_running (container_reload env [] k)); reflexivity.
Qed.

Lemma filter_idempotent {A} (f : A -> bool) (l : list A) :
  filter f (filter f l) = filter f l.
Proof.
  induction l as [|x l IH]; simpl; [reflexivity|].
  destruct (f x) eqn:E; simpl; [rewrite E, IH; reflexivity | exact IH].
Qed.

End ReconciliationOutcomes.

(** X8. Reconciling twice in a row changes nothing the second time, as
    long as the runtime reports the same status for a container whenever
    it is asked: on a well-formed registry both runs return normally and
    the second leaves the registry exactly as the first left it. *)
Theorem remove_stopped_containers_idempotent
        {SV : SemVer} (env : Env) (s s1 s2 : State) r1 r2 :
  (forall h1 h2 id, container_reload env h1 id = container_reload env h2 id) ->
  registry_wf s ->
  remove_stopped_containers env s = (r1, s1) ->
  remove_stopped_containers env s1 = (r2, s2) ->
  r1 = inr tt /\ r2 = inr tt /\ containers s2 = containers s1.
Proof.
  intros Hstable Hwf Hrun1 Hrun2.
  destruct (reconcile_loop env (containers s) [] s eq_refl Hwf)
    as (t1 & Ht1 & Hc1 & _ & _ & _ & Hwf1).
  change (for_each (dict_values (containers s)) (remove_if_stopped env) s)
    with (remove_stopped_containers env s) in Ht1.
  rewrite Hrun1 in Ht1. inversion Ht1; subst t1 r1. clear Ht1.
  destruct (reconcile_loop env (containers s1) [] s1 eq_refl Hwf1)
    as (t2 & Ht2 & Hc2 & _).
  change (for_each (dict_values (containers s1)) (remove_if_stopped env) s1)
    with (remove_stopped_containers env s1) in Ht2.
  rewrite Hrun2 in Ht2. inversion Ht2; subst t2 r2. clear Ht2.
  split; [reflexivity|]. split; [reflexivity|].
  simpl in Hc1, Hc2. rewrite Hc2, Hc1.
  rewrite !(reconciled_stable env _ _ Hstable). apply filter_idempotent.
Qed.

Lemma remove_stopped_containers_idempotent_witness :
  containers
    (snd (remove_stopped_containers fleet_env
            (snd (remove_stopped_containers fleet_env fleet_state))))
  = [("a", 0%nat)].
Proof.
  exact (proj2 (proj2 (remove_stopped_containers_idempotent
                         fleet_env fleet_state
                         (snd (remove_stopped_containers fleet_env fleet_state))
                         (snd (remove_stopped_containers fleet_env
                                 (snd (remove_stopped_containers fleet_env fleet_state))))
                         (inr tt) (inr tt)
                         (fun _ _ _ => eq_refl) fleet_state_wf eq_refl eq_refl))).
Defined.

(** X9. In every state in which a request is handled (after a completed
    startup and any number of handled requests, whatever their outcomes
    and whatever the collaborators answered) the registry is well formed:
    its keys are unique and each is the id of the container object it
    maps to.  Hence reconciliation returns normally in every such state:
    the handler never fails in its reconciliation step. *)
Theorem serving_registry_wf {SV : SemVer} (env : Env) (s : State) :
  serving env s ->
  registry_wf s /\
  exists s', remove_stopped_containers env s = (inr tt, s').
Proof.
  intros Hserving.
  assert (Hwf : registry_wf s).
  { induction Hserving as [s Hstart | game_request s r s' _ IH Hrun].
    - exact (lifespan_startup_wf env initial_state s (inr tt) initial_state_wf Hstart).
    - exact (request_game_wf env game_request s s' r IH Hrun). }
  split; [exact Hwf|].
  destruct (reconcile_loop env (containers s) [] s eq_refl Hwf) as (s' & Hrun & _).
  exists s'. exact Hrun.
Qed.

Lemma serving_registry_wf_witness :
  registry_wf (snd (request_game hub_ok_env request_120 started_up_state)).
Proof.
  refine (proj1 (serving_registry_wf hub_ok_env _ _)).
  apply (serving_handled hub_ok_env request_120 started_up_state (inr 40000)).
  - apply serving_started. reflexivity.
  - reflexivity.
Defined.

(** ** Shutdown *)

Section ShutdownOutcomes.
Context {SV : SemVer}.
Variable runtime : StopEnv.

Lemma lookups_app (h1 h2 : list stop_event) : lookups (h1 ++ h2) = lookups h1 ++ lookups h2.
Proof. unfold lookups. apply flat_map_app. Qed.

Lemma stops_app (h1 h2 : list stop_event) : stops (h1 ++ h2) = stops h1 ++ stops h2.
Proof. unfold stops. apply flat_map_app. Qed.

(** One [stop_server], by the answers of the runtime: the calls it makes
    and its result. *)
Lemma stop_server_cases (id : string) (h h' : list stop_event) r :
  stop_server runtime id h = (r, h') ->
  (exists exc,
      containers_get runtime h id = inl exc /\
      h' = h ++ [EvContainersGet id] /\
      r = if isinstance exc NotFound then inr tt else inl exc)
  \/
  (exists c,
      containers_get runtime h id = inr c /\
      h' = h ++ [EvContainersGet id; EvContainerStop (container_id c)] /\
      r = container_stop runtime (h ++ [EvContainersGet id]) (container_id c)).
Proof.
  unfold stop_server.
  destruct (containers_get runtime h id) as [exc|c] eqn:Eget.
  - destruct (isinstance exc NotFound) eqn:Einst; intros E; inversion E; subst;
      left; exists exc; rewrite Einst; auto.
  - intros E. inversion E; subst. right. exists c.
    rewrite <- app_assoc. auto.
Qed.

(** The loop on a runtime that finds exactly the containers for which
    [present] holds and stops what it is asked to stop. *)
Lemma stop_each_present (present : string -> bool) (ids : list string) (h : list stop_event) :
  (forall h0 id, present id = true ->
                 exists c, containers_get runtime h0 id = inr c /\ container_id c = id) ->
  (forall h0 id, present id = false ->
                 exists e, containers_get runtime h0 id = inl e /\ isinstance e NotFound = true) ->
  (forall h0 id, container_stop runtime h0 id = inr tt) ->
  stop_each runtime ids h = (inr tt, h ++ stop_calls present ids).
Proof.
  intros Hfound Hgone Hstop. revert h.
  induction ids as [|id ids IH]; intros h; simpl.
  - rewrite app_nil_r. reflexivity.
  - unfold stop_server. destruct (present id) eqn:Ep.
    + destruct (Hfound h id Ep) as (c & -> & ->). rewrite Hstop, IH.
      rewrite <- !app_assoc. reflexivity.
    + destruct (Hgone h id Ep) as (e & -> & ->). rewrite IH.
      rewrite <- !app_assoc. reflexivity.
Qed.

(** In a well-formed registry the ids of the container objects are the
    keys. *)
Lemma tracked_ids_wf (s : State) : registry_wf s -> tracked_ids s = dict_keys (containers s).
Proof.
  intros [_ Hent]. unfold tracked_ids, dict_values, dict_keys.
  rewrite map_map. apply map_ext_in. intros [k c] Hin. simpl.
  apply (Hent k c Hin).
Qed.

Lemma stops_stop_calls (present : string -> bool) (ids : list string) :
  stops (stop_calls present ids) = filter present ids /\
  lookups (stop_calls present ids) = ids.
Proof.
  induction ids as [|id ids [IHs IHl]]; simpl; [auto|].
  unfold stop_calls in *. simpl. rewrite stops_app, lookups_app, IHs, IHl.
  destruct (present id); simpl; auto.
Qed.

End ShutdownOutcomes.

(** X10. Shutdown on a cooperative runtime.  When the runtime finds some
    of the tracked containers and reports the others as not found, and
    stops what it is asked to stop, [stop_all_servers] returns normally;
    it has looked up every tracked container once, in registry order, and
    stopped exactly the ones that were found, each once: a container that
    is already gone is skipped and does not end the shutdown. *)
Theorem stop_all_servers_stops_present
        {SV : SemVer} (runtime : StopEnv) (present : string -> bool) (s : State)
        (h : list stop_event) :
  registry_wf s ->
  (forall h0 id, present id = true ->
                 exists c, containers_get runtime h0 id = inr c /\ container_id c = id) ->
  (forall h0 id, present id = false ->
                 exists e, containers_get runtime h0 id = inl e /\ isinstance e NotFound = true) ->
  (forall h0 id, container_stop runtime h0 id = inr tt) ->
  stop_all_servers runtime s h
  = (inr tt, h ++ stop_calls present (dict_keys (containers s))) /\
  lookups (stop_calls present (dict_keys (containers s))) = dict_keys (containers s) /\
  stops (stop_calls present (dict_keys (containers s)))
  = filter present (dict_keys (containers s)) /\
  NoDup (stops (stop_calls present (dict_keys (containers s)))).
Proof.
  intros Hwf Hfound Hgone Hstop.
  destruct (stops_stop_calls present (dict_keys (containers s))) as [Hs Hl].
  split.
  - unfold stop_all_servers. rewrite (tracked_ids_wf s Hwf).
    apply stop_each_present; assumption.
  - split; [exact Hl|]. split; [exact Hs|].
    rewrite Hs. apply NoDup_filter. apply Hwf.
Qed.

Lemma stop_all_servers_stops_present_witness :
  stop_all_servers calm_runtime fleet_state []
  = (inr tt,
     [EvContainersGet "a"; EvContainerStop "a"; EvContainersGet "b";
      EvContainersGet "c"; EvContainerStop "c"]).
Proof.
  refine (proj1 (stop_all_servers_stops_present
                   calm_runtime (fun id => negb (String.eqb id "b")) fleet_state []
                   fleet_state_wf _ _ _)).
  - intros h0 id Hp. simpl. unfold fleet_lookup.
    destruct (String.eqb id "b"); [discriminate|]. eexists. split; reflexivity.
  - intros h0 id Hp. simpl. unfold fleet_lookup.
    destruct (String.eqb id "b"); [|discriminate]. eexists. split; reflexivity.
  - intros h0 id. reflexivity.
Defined.

(** X11. Shutdown, whatever the runtime answers.  The lookups made are
    lookups of the tracked containers in registry order, all of them, once
    each, when [stop_all_servers] returns, and no more stops are made than
    lookups.  When it raises, the loop ended at the failing container: the
    containers before it were looked up, the exception is that of its
    lookup, failing otherwise than with [NotFound], or that of its stop,
    each made at the history the run had reached, and these are the last
    calls made.  On a runtime whose lookups hand back the container asked
    for, every container stopped was looked up; so, the tracked ids being
    distinct, the containers after the failing one were neither looked up
    nor stopped. *)
Theorem stop_all_servers_stops_at_first_failure
        {SV : SemVer} (runtime : StopEnv) (s : State) (h h' : list stop_event) r :
  stop_all_servers runtime s h = (r, h') ->
  exists evs,
    h' = h ++ evs /\
    (length (stops evs) <= length (lookups evs))%nat /\
    ((forall h0 id c, containers_get runtime h0 id = inr c -> container_id c = id) ->
     incl (stops evs) (lookups evs)) /\
    match r with
    | inr _ => lookups evs = tracked_ids s
    | inl e =>
        exists done id rest evs0,
          tracked_ids s = done ++ id :: rest /\
          lookups evs0 = done /\
          ((containers_get runtime (h ++ evs0) id = inl e /\
            isinstance e NotFound = false /\
            evs = evs0 ++ [EvContainersGet id])
           \/
           (exists c,
               containers_get runtime (h ++ evs0) id = inr c /\
               container_stop runtime ((h ++ evs0) ++ [EvContainersGet id]) (container_id c)
               = inl e /\
               evs = evs0 ++ [EvContainersGet id; EvContainerStop (container_id c)])) /\
          lookups evs = done ++ [id] /\
          ((forall h0 id0 c, containers_get runtime h0 id0 = inr c -> container_id c = id0) ->
           NoDup (tracked_ids s) ->
           forall x, In x rest -> ~ In x (lookups evs) /\ ~ In x (stops evs))
    end.
Proof.
  unfold stop_all_servers. generalize (tracked_ids s) as ids. intros ids.
  (* the loop, without the last clause, which follows from the others *)
  assert (Hloop : forall ids h h' r,
             stop_each runtime ids h = (r, h') ->
             exists evs,
               h' = h ++ evs /\
               (length (stops evs) <= length (lookups evs))%nat /\
               ((forall h0 id c, containers_get runtime h0 id = inr c -> container_id c = id) ->
                incl (stops evs) (lookups evs)) /\
               match r with
               | inr _ => lookups evs = ids
               | inl e =>
                   exists done id rest evs0,
                     ids = done ++ id :: rest /\
                     lookups evs0 = done /\
                     ((containers_get runtime (h ++ evs0) id = inl e /\
                       isinstance e NotFound = false /\
                       evs = evs0 ++ [EvContainersGet id])
                      \/
                      (exists c,
                          containers_get runtime (h ++ evs0) id = inr c /\
                          container_stop runtime ((h ++ evs0) ++ [EvContainersGet id])
                                         (container_id c) = inl e /\
                          evs = evs0 ++ [EvContainersGet id;
                                         EvContainerStop (container_id c)]))
               end).
  { clear ids h h' r. intros ids. induction ids as [|id ids IH]; intros h h' r; simpl.
    - intros E. inversion E; subst. exists []. rewrite app_nil_r. simpl.
      split; [reflexivity|]. split; [lia|]. split; [intros _ x []|reflexivity].
    - destruct (stop_server runtime id h) as [r1 h1] eqn:E1.
      apply stop_server_cases in E1.
      assert (Hfirst : exists evs1,
                 h1 = h ++ evs1 /\ lookups evs1 = [id] /\
                 (length (stops evs1) <= 1)%nat /\
                 ((forall h0 id c, containers_get runtime h0 id = inr c -> container_id c = id) ->
                  incl (stops evs1) (lookups evs1)) /\
                 match r1 with
                 | inr _ => True
                 | inl e =>
                     (containers_get runtime h id = inl e /\
                      isinstance e NotFound = false /\ evs1 = [EvContainersGet id])
                     \/
                     (exists c,
                         containers_get runtime h id = inr c /\
                         container_stop runtime (h ++ [EvContainersGet id]) (container_id c)
                         = inl e /\
                         evs1 = [EvContainersGet id; EvContainerStop (container_id c)])
                 end).
      { destruct E1 as [(exc & Hget & -> & ->) | (c & Hget & -> & ->)].
        - exists [EvContainersGet id]. split; [reflexivity|]. split; [reflexivity|].
          split; [simpl; lia|]. split; [intros _ x []|].
          destruct (isinstance exc NotFound) eqn:Einst; [exact I|]. left. auto.
        - exists [EvContainersGet id; EvContainerStop (container_id c)].
          split; [reflexivity|]. split; [reflexivity|]. split; [simpl; lia|]. split.
          + intros Hfaithful x Hx. simpl in *. rewrite (Hfaithful h id c Hget) in Hx.
            exact Hx.
          + destruct (container_stop runtime (h ++ [EvContainersGet id]) (container_id c))
              eqn:Es; [|exact I].
            right. exists c. auto. }
      clear E1. destruct Hfirst as (evs1 & -> & Hl1 & Hs1 & Hincl1 & Hcause).
      destruct r1 as [e|[]].
      + intros E. inversion E; subst. exists evs1. split; [reflexivity|].
        split; [rewrite Hl1; exact Hs1|]. split; [exact Hincl1|].
        exists [], id, ids, []. rewrite app_nil_r. simpl.
        split; [reflexivity|]. split; [reflexivity|]. exact Hcause.
      + intros E. apply IH in E. destruct E as (evs & -> & Hs & Hincl & Hres).
        exists (evs1 ++ evs). rewrite app_assoc. split; [reflexivity|].
        split; [rewrite lookups_app, stops_app, !length_app, Hl1; simpl; lia|]. split.
        * intros Hfaithful x Hx. rewrite stops_app in Hx. rewrite lookups_app.
          apply in_or_app. apply in_app_or in Hx.
          destruct Hx as [Hx|Hx]; [left; apply (Hincl1 Hfaithful x Hx)
                                  | right; apply (Hincl Hfaithful x Hx)].
        * destruct r as [e|[]].
          -- destruct Hres as (done & id' & rest & evs0 & -> & Hl0 & Hc).
             exists (id :: done), id', rest, (evs1 ++ evs0).
             split; [reflexivity|].
             split; [rewrite lookups_app, Hl1, Hl0; reflexivity|].
             rewrite <- !app_assoc in *.
             destruct Hc as [(Hget & Hinst & ->) | (c & Hget & Hstop & ->)].
             ++ left. split; [exact Hget|]. split; [exact Hinst|].
                rewrite <- ?app_assoc. reflexivity.
             ++ right. exists c. split; [exact Hget|]. split; [exact Hstop|].
                rewrite <- ?app_assoc. reflexivity.
          -- rewrite lookups_app, Hl1, Hres. reflexivity. }
  intros Hrun. destruct (Hloop ids h h' r Hrun) as (evs & Hh & Hs & Hincl & Hres).
  exists evs. split; [exact Hh|]. split; [exact Hs|]. split; [exact Hincl|].
  destruct r as [e|[]]; [|exact Hres].
  destruct Hres as (done & id & rest & evs0 & Hids & Hl0 & Hc).
  assert (Hl : lookups evs = done ++ [id]).
  { destruct Hc as [(_ & _ & ->) | (c & _ & _ & ->)];
      rewrite lookups_app, Hl0; reflexivity. }
  exists done, id, rest, evs0.
  split; [exact Hids|]. split; [exact Hl0|]. split; [exact Hc|]. split; [exact Hl|].
  intros Hfaithful Hnd x Hx.
  assert (Hnot : ~ In x (done ++ [id])).
  { rewrite Hids in Hnd. intros Hin.
    replace (done ++ id :: rest) with ((done ++ [id]) ++ rest) in Hnd
      by (rewrite <- app_assoc; reflexivity).
    apply NoDup_app_remove_l in Hnd as Hrest.
    revert Hin Hx. clear -Hnd. revert Hnd.
    induction (done ++ [id]) as [|y l IHl]; simpl; intros Hnd Hin Hx; [exact Hin|].
    inversion Hnd as [|? ? Hy Hnd']; subst.
    destruct Hin as [->|Hin].
    - apply Hy. apply in_or_app. right. exact Hx.
    - exact (IHl Hnd' Hin Hx). }
  rewrite Hl. split; [exact Hnot|].
  intros Hin. apply Hnot. rewrite <- Hl. exact (Hincl Hfaithful x Hin).
Qed.

Lemma stop_all_servers_stops_at_first_failure_witness :
  exists evs,
    snd (stop_all_servers fleet_runtime fleet_state []) = [] ++ evs /\
    incl (stops evs) (lookups evs).
Proof.
  destruct (stop_all_servers_stops_at_first_failure
              fleet_runtime fleet_state []
              (snd (stop_all_servers fleet_runtime fleet_state []))
              (inl (Raised APIError "500 Server Error: cannot stop container: c"))
              eq_refl)
    as (evs & Hh & _ & Hincl & _).
  exists evs. split; [exact Hh|]. apply Hincl.
  intros h0 id c. simpl. unfold fleet_lookup.
  destruct (String.eqb id "b"); intros E; inversion E. reflexivity.
Defined.

(** The failing stop of [c] ends the shutdown of the fleet with the
    daemon's exception, after [a] was stopped and [b] was skipped. *)
Example stop_all_servers_fleet :
  stop_all_servers fleet_runtime fleet_state []
  = (inl (Raised APIError "500 Server Error: cannot stop container: c"),
     [EvContainersGet "a"; EvContainerStop "a"; EvContainersGet "b";
      EvContainersGet "c"; EvContainerStop "c"]).
Proof. reflexivity. Qed.

(** ** The refreshed catalog and the version gate *)

(** X12. Right after a successful refresh the version gate is consistent
    with the catalog: for every version the refreshed catalog supports,
    the minimum is present and the below-minimum check of the handler
    answers no, so that a supported version is never turned away as too
    old.  (Equal versions are assumed to compare alike under [<], as
    semantic versions do.) *)
Theorem refreshed_catalog_passes_minimum
        {SV : SemVer} `{!SemVerOrder SV} (env : Env) (user repo : string) (s : State)
        (names : list string) :
  (forall a b c : Version, version_eq a b = true -> version_lt b c = version_lt a c) ->
  requests_get env (history s) (DOCKER_HUB_URL user repo) MAX_TAGS
  = inr {| status_code := 200; json_names := inr names |} ->
  exists s',
    get_latest_image_tags env user repo s = (inr tt, s') /\
    forall version,
      version_in version (latest_tags s') = true ->
      (exists m, min_supported_tag s' = Some m) /\
      version_less version (min_supported_tag s') s' = (inr false, s').
Proof.
  intros Hcompat Hget. rewrite get_latest_image_tags_run. cbv zeta. rewrite Hget. simpl.
  eexists. split; [reflexivity|]. simpl.
  pose proof (scan_tags_min_invariant names [] None eq_refl) as Hinv.
  intros version Hin. unfold version_in in Hin. apply existsb_exists in Hin.
  destruct Hin as (t & Ht & Heq).
  destruct (snd (scan_tags names [] None)) as [m|]; simpl in Hinv.
  - destruct Hinv as [_ Hmin]. split; [exists m; reflexivity|].
    unfold version_less, ret. rewrite (Hcompat t version m Heq), (Hmin t Ht). reflexivity.
  - rewrite Hinv in Ht. destruct Ht.
Qed.

Lemma refreshed_catalog_passes_minimum_witness :
  exists s',
    get_latest_image_tags hub_ok_env DOCKER_USER DOCKER_REPO stale_state = (inr tt, s') /\
    version_less v120 (min_supported_tag s') s' = (inr false, s').
Proof.
  destruct (refreshed_catalog_passes_minimum
              (SV := ReleaseVersion) hub_ok_env DOCKER_USER DOCKER_REPO stale_state
              ["latest"; "1.2.0"; "1.0.0"]) as (s' & Hrun & Hgate).
  - intros a b c Heq. simpl in *. unfold Release.eqb in Heq.
    apply andb_true_iff in Heq. destruct Heq as [Heq Hp].
    apply andb_true_iff in Heq. destruct Heq as [Hma Hmi].
    apply Z.eqb_eq in Hma, Hmi, Hp. unfold Release.ltb.
    rewrite Hma, Hmi, Hp. reflexivity.
  - reflexivity.
  - exists s'. split; [exact Hrun|].
    apply Hgate. inversion Hrun; subst. reflexivity.
Defined.
